(** * io-developer-portal-backend: API management helpers and REST client

    A shallow embedding of the Azure API management helpers ([loginToApim],
    [getUserSubscription], [regeneratePrimaryKey], [regenerateSecondaryKey],
    [addUserSubscriptionToProduct], [addUserToGroups]) and of [toEither]
    from [src/api_client.ts].

    Conventions of the embedding:
    - a JS [Promise<A>] awaited by its caller is a computation that changes
      the outside world and settles either fulfilled with a value or
      rejected with an [Error]; [await] of a rejected promise throws, so the
      enclosing [async] function rejects with the same error ([bind]);
    - the outside world is a pair of the state of the remote services, an
      arbitrary type [S], and the journal of SDK calls issued so far;
    - the SDK objects ([ApiManagementClient], [msRestAzure], [ulid], [Date])
      are records of state transformers over [S];
    - [fp-ts]'s [Either] and [Option] are [Either] below and [option];
    - [logger.debug] calls are not part of the functional contract and are
      dropped but for the arguments they evaluate that read the world. *)

From Stdlib Require Import DecimalString DecimalPos DecimalZ.
From stdpp Require Import base numbers strings list gmap relations.

Open Scope Z_scope.

(** ** Values shared by the two source files *)

(** JS [Error]: only its message is observed. *)
Record Error := mkError { message : string }.

(** fp-ts [Either<L, A>]. *)
Inductive Either (L A : Type) :=
| left  (l : L)
| right (a : A).
Arguments left {L A} l.
Arguments right {L A} a.

Definition isRight {L A} (e : Either L A) : bool :=
  match e with right _ => true | left _ => false end.

(** JS truthiness of a value typed [string | undefined]: [!x] holds for
    [undefined] and for the empty string. *)
Definition truthy (x : option string) : bool :=
  match x with
  | Some s => negb (String.eqb s "")
  | None => false
  end.

(** JS conversion of an integral number to a string, as done by
    ["..." + n]. *)
Definition string_of_number (n : Z) : string :=
  NilZero.string_of_int (Z.to_int n).

(** ** [src/api_client.ts] *)

Module ApiClient.

(** [IResponseType<S, T>] of italia-ts-commons at run time: the decoded
    response carries a numeric [status] and a [value].  [ApiResponseType<T>]
    only narrows, at the type level, which statuses can occur (200, 201,
    401, 404, 500) and what [value] is for each; [toEither] itself looks at
    [status] alone, so the status is left an arbitrary number here. *)
Record ApiResponseType (V : Type) := mkResponse {
  status : Z;
  value : V
}.
Arguments mkResponse {V} status value.
Arguments status {V} _.
Arguments value {V} _.

(** [toEither(res)], lines 197-208.  [None] is [undefined]. *)
Definition toEither {V} (res : option (ApiResponseType V)) : Either Error V :=
  match res with
  | None => left (mkError "Response is empty")
  | Some res =>
      if (status res =? 200) || (status res =? 201)
      then right (value res)
      else left (mkError ("Error parsing response: " +:+ string_of_number (status res)))
  end.

End ApiClient.

(** ** The outside world and [async] functions *)

(** How a promise settles. *)
Inductive Outcome (A : Type) :=
| Fulfilled (a : A)
| Rejected (e : Error).
Arguments Fulfilled {A} a.
Arguments Rejected {A} e.

(** Models of [azure-arm-apimanagement/lib/models], with the fields the
    helpers read or write.  Optional fields ([name?: string]) are options. *)

Module SubscriptionContract.
Record t := mk {
  name : option string;
  userId : string;
  productId : string;
  displayName : option string;
  state : string;
  primaryKey : string;
  secondaryKey : string
}.
End SubscriptionContract.

Module SubscriptionCreateParameters.
Record t := mk {
  displayName : string;
  productId : string;
  state : option string;
  userId : string
}.
End SubscriptionCreateParameters.

Module ProductContract.
Record t := mk {
  id : option string;
  name : option string;
  displayName : string
}.
End ProductContract.

Module GroupContract.
Record t := mk {
  name : option string;
  displayName : string
}.
End GroupContract.

Module UserContract.
Record t := mk {
  id : option string;
  name : option string;
  email : option string
}.
End UserContract.

(** [msRestAzure.TokenResponse].  [expiresOn] stands for the number
    [new Date(token.expiresOn).getTime()] evaluates to: epoch milliseconds,
    or [None] for [NaN] (a date that does not parse). *)
Record TokenResponse := mkToken {
  accessToken : string;
  expiresOn : option Z
}.

(** [msRestAzure.MSIAppServiceTokenCredentials]: an opaque handle; what its
    [getToken] method answers is part of the runtime below. *)
Record MSIAppServiceTokenCredentials := mkCreds {
  resource : string
}.

Record ITokenAndCredentials := mkTokenAndCredentials {
  token : TokenResponse;
  loginCreds : MSIAppServiceTokenCredentials
}.

(** The result of [getUserSubscription]: [SubscriptionContract & { name:
    string }], built as [{ name: subscription.name, ...subscription }]. *)
Record NamedSubscription := mkNamed {
  name : string;
  contract : SubscriptionContract.t
}.

(** The SDK calls the helpers issue, as recorded in the journal.  Each call
    of the management client is scoped by the fixed pair
    [(config.azurermResourceGroup, config.azurermApim)], left out here. *)
Inductive Call :=
| LoginWithAppServiceMSI
| GetToken (loginCreds : MSIAppServiceTokenCredentials)
| SubscriptionGet (subscriptionId : string)
| SubscriptionRegeneratePrimaryKey (subscriptionId : string)
| SubscriptionRegenerateSecondaryKey (subscriptionId : string)
| SubscriptionCreateOrUpdate (subscriptionId : string)
    (parameters : SubscriptionCreateParameters.t)
| ProductGet (productName : string)
| UserGroupList (userName : string)
| GroupUserCreate (group : string) (userName : string).

(** The two calls that regenerate a key. *)
Definition is_regenerate (c : Call) : bool :=
  match c with
  | SubscriptionRegeneratePrimaryKey _
  | SubscriptionRegenerateSecondaryKey _ => true
  | _ => false
  end.

Record World (S : Type) := mkWorld {
  service : S;
  calls : list Call
}.
Arguments mkWorld {S} service calls.
Arguments service {S} _.
Arguments calls {S} _.

(** An awaited promise of an [A]. *)
Definition Async (S A : Type) : Type := World S → Outcome A * World S.

(** [return a] in an [async] function, or [Promise.resolve(a)]. *)
Definition resolve {S A} (a : A) : Async S A :=
  λ w, (Fulfilled a, w).

(** [const x = await p; k]: a rejection of [p] is thrown and rejects the
    enclosing function; nothing of [k] runs. *)
Definition await {S A B} (p : Async S A) (k : A → Async S B) : Async S B :=
  λ w, match p w with
       | (Fulfilled a, w') => k a w'
       | (Rejected e, w') => (Rejected e, w')
       end.

Notation "'let*' x ':=' 'await' p 'in' k" := (await p (λ x, k))
  (at level 10, x pattern, p at level 100, k at level 200,
   format "'[v' 'let*'  x  ':='  'await'  p  'in' '/' k ']'").

(** A call of the SDK: it acts on the services and is entered in the
    journal. *)
Definition sdk {S A} (c : Call) (op : S → Outcome A * S) : Async S A :=
  λ w, let '(r, s) := op (service w) in (r, mkWorld s (calls w ++ [c])).

(** A synchronous read of the environment ([Date.now()], [ulid()]). *)
Definition sync {S A} (op : S → A * S) : Async S A :=
  λ w, let '(a, s) := op (service w) in (Fulfilled a, mkWorld s (calls w)).

(** What [loginCreds.getToken] passes to its callback: [(err, tok)]. *)
Inductive TokenCallback :=
| callback_err (err : Error)
| callback_tok (tok : TokenResponse).

(** The ambient modules: [Date], [msRestAzure], [ulid]. *)
Record Runtime (S : Type) := mkRuntime {
  Date_now : S → Z * S;
  loginWithAppServiceMSI : S → Outcome MSIAppServiceTokenCredentials * S;
  credentials_getToken : MSIAppServiceTokenCredentials → S → TokenCallback * S;
  ulid : S → string * S
}.
Arguments Date_now {S} _.
Arguments loginWithAppServiceMSI {S} _.
Arguments credentials_getToken {S} _.
Arguments ulid {S} _.

(** [ApiManagementClient], with the operations the helpers use. *)
Record ApiManagementClient (S : Type) := mkClient {
  subscription_get : string → S → Outcome SubscriptionContract.t * S;
  subscription_regeneratePrimaryKey : string → S → Outcome () * S;
  subscription_regenerateSecondaryKey : string → S → Outcome () * S;
  subscription_createOrUpdate :
    string → SubscriptionCreateParameters.t → S → Outcome SubscriptionContract.t * S;
  product_get : string → S → Outcome (option ProductContract.t) * S;
  userGroup_list : string → S → Outcome (list GroupContract.t) * S;
  groupUser_create : string → string → S → Outcome UserContract.t * S
}.
Arguments subscription_get {S} _.
Arguments subscription_regeneratePrimaryKey {S} _.
Arguments subscription_regenerateSecondaryKey {S} _.
Arguments subscription_createOrUpdate {S} _.
Arguments product_get {S} _.
Arguments userGroup_list {S} _.
Arguments groupUser_create {S} _.

(** ** The API management helpers *)

Module Apim.

(** JS [a >= b] on numbers, [a] possibly [NaN]: every comparison with [NaN]
    is false. *)
Definition number_ge (a : option Z) (b : Z) : bool :=
  match a with
  | Some a => b <=? a
  | None => false
  end.

(** [getToken(loginCreds)], lines 36-48: the callback style of
    [loginCreds.getToken] turned into a promise, rejected with [err] when the
    callback is given one and fulfilled with [tok] otherwise. *)
Definition getToken {S} (rt : Runtime S)
    (loginCreds : MSIAppServiceTokenCredentials) : Async S TokenResponse :=
  λ w, let '(callback, s) := credentials_getToken rt loginCreds (service w) in
       let w' := mkWorld s (calls w ++ [GetToken loginCreds]) in
       match callback with
       | callback_err err => (Rejected err, w')
       | callback_tok tok => (Fulfilled tok, w')
       end.

(** [loginToApim(tokenCreds?)], lines 50-83.  The second [Date.now()] is the
    one among the arguments of [logger.debug], line 67; the [match] is the
    test [tokenCreds && !isTokenExpired] of line 72. *)
Definition loginToApim {S} (rt : Runtime S)
    (tokenCreds : option ITokenAndCredentials) : Async S ITokenAndCredentials :=
  let tokenExpireTime :=
    match tokenCreds with
    | Some tokenCreds => expiresOn (token tokenCreds)
    | None => Some 0
    end in
  let* now := await sync (Date_now rt) in
  let isTokenExpired := number_ge tokenExpireTime now in
  let* _ := await sync (Date_now rt) in
  match (if negb isTokenExpired then tokenCreds else None) with
  | Some tokenCreds => resolve tokenCreds
  | None =>
      let* loginCreds := await sdk LoginWithAppServiceMSI (loginWithAppServiceMSI rt) in
      let* token := await getToken rt loginCreds in
      resolve {| loginCreds := loginCreds; token := token |}
  end.

(** [getUserSubscription(apiClient, subscriptionId, userId)], lines 85-100. *)
Definition getUserSubscription {S} (apiClient : ApiManagementClient S)
    (subscriptionId userId : string) : Async S (option NamedSubscription) :=
  let* subscription :=
    await sdk (SubscriptionGet subscriptionId)
              (subscription_get apiClient subscriptionId) in
  if bool_decide (SubscriptionContract.userId subscription ≠ userId)
     || negb (truthy (SubscriptionContract.name subscription))
  then resolve None
  else resolve (Some {| name := default "" (SubscriptionContract.name subscription);
                        contract := subscription |}).

(** [regeneratePrimaryKey(apiClient, subscriptionId, userId)], lines
    116-136. *)
Definition regeneratePrimaryKey {S} (apiClient : ApiManagementClient S)
    (subscriptionId userId : string) : Async S (option NamedSubscription) :=
  let* maybeSubscription := await getUserSubscription apiClient subscriptionId userId in
  match maybeSubscription with
  | None => resolve None
  | Some _ =>
      let* _ :=
        await sdk (SubscriptionRegeneratePrimaryKey subscriptionId)
                  (subscription_regeneratePrimaryKey apiClient subscriptionId) in
      getUserSubscription apiClient subscriptionId userId
  end.

(** [regenerateSecondaryKey(apiClient, subscriptionId, userId)], lines
    138-158. *)
Definition regenerateSecondaryKey {S} (apiClient : ApiManagementClient S)
    (subscriptionId userId : string) : Async S (option NamedSubscription) :=
  let* maybeSubscription := await getUserSubscription apiClient subscriptionId userId in
  match maybeSubscription with
  | None => resolve None
  | Some _ =>
      let* _ :=
        await sdk (SubscriptionRegenerateSecondaryKey subscriptionId)
                  (subscription_regenerateSecondaryKey apiClient subscriptionId) in
      getUserSubscription apiClient subscriptionId userId
  end.

(** [addUserSubscriptionToProduct(apiClient, userId, productName)], lines
    188-220.  [product] may be [undefined], hence the option;
    [!product || !product.id] is [truthy] failing on the id, if any. *)
Definition addUserSubscriptionToProduct {S} (rt : Runtime S)
    (apiClient : ApiManagementClient S) (userId productName : string)
    : Async S (Either Error SubscriptionContract.t) :=
  let* product := await sdk (ProductGet productName) (product_get apiClient productName) in
  if negb (truthy (product ≫= ProductContract.id))
  then resolve (left (mkError "Cannot find API management product for update"))
  else
    let product_id := default "" (product ≫= ProductContract.id) in
    let* subscriptionId := await sync (ulid rt) in
    let* subscription :=
      await sdk (SubscriptionCreateOrUpdate subscriptionId
                   {| SubscriptionCreateParameters.displayName := subscriptionId;
                      SubscriptionCreateParameters.productId := product_id;
                      SubscriptionCreateParameters.state := Some "active";
                      SubscriptionCreateParameters.userId := userId |})
                (subscription_createOrUpdate apiClient subscriptionId
                   {| SubscriptionCreateParameters.displayName := subscriptionId;
                      SubscriptionCreateParameters.productId := product_id;
                      SubscriptionCreateParameters.state := Some "active";
                      SubscriptionCreateParameters.userId := userId |}) in
    resolve (right subscription).

(** The callback of the [reduce] of [addUserToGroups], lines 255-266: an
    [async] function of the promise [prev] and of [group]. *)
Definition addGroup {S} (apiClient : ApiManagementClient S) (user_name : string)
    (prev : Async S (list string)) (group : string) : Async S (list string) :=
  let* addedGroups := await prev in
  let* _ :=
    await sdk (GroupUserCreate group user_name)
              (groupUser_create apiClient group user_name) in
  resolve (addedGroups ++ [group]).

(** [new Set(existingGroups.map(g => g.name))], line 239: a set of
    [string | undefined]. *)
Definition existingGroupsNames (existingGroups : list GroupContract.t)
    : gset (option string) :=
  list_to_set (GroupContract.name <$> existingGroups).

(** [new Set(groups.filter(g => !existingGroupsNames.has(g)))], lines
    241-243. *)
Definition missingGroups (existingGroupsNames : gset (option string))
    (groups : list string) : gset string :=
  list_to_set (filter (λ g, Some g ∉ existingGroupsNames) groups).

(** [addUserToGroups(apiClient, user, groups)], lines 225-268.  [user] is
    tested with [!user], hence the option; [!user || !user.name] is [truthy]
    failing on the name, if any.  The promise [reduce] returns is awaited
    once, at line 255, and is run there; the module [Reduce] below takes the
    same [reduce] one step of one turn at a time. *)
Definition addUserToGroups {S} (apiClient : ApiManagementClient S)
    (user : option UserContract.t) (groups : list string)
    : Async S (Either Error (list string)) :=
  if negb (truthy (user ≫= UserContract.name))
  then resolve (left (mkError "Cannot parse user"))
  else
    let user_name := default "" (user ≫= UserContract.name) in
    let* existingGroups :=
      await sdk (UserGroupList user_name) (userGroup_list apiClient user_name) in
    let existingGroupsNames := existingGroupsNames existingGroups in
    let missingGroups := missingGroups existingGroupsNames groups in
    if bool_decide (size missingGroups = 0%nat)
    then resolve (right [])
    else
      let* added :=
        await foldl (addGroup apiClient user_name) (resolve []) groups in
      resolve (right added).

End Apim.

(** ** The [reduce] of [addUserToGroups], turn by turn

    [groups.reduce(async (prev, group) => ..., Promise.resolve([]))], lines
    255-266, calls the callback once per group, synchronously: [reduce]
    itself does not wait.  Each call of the callback, a turn, runs up to its
    first [await] and hands back the promise it will settle, which is the
    [prev] of the next turn.  So when [reduce] returns every turn is
    suspended at [await prev], line 256, and the turns then advance one step
    at a time, in whatever order the event loop finds them ready.  The
    machine below has these steps; it does not assume an order. *)

Module Reduce.

(** Where a turn stands. *)
Inductive Turn :=
| AwaitPrev
    (* suspended at [await prev], line 256 *)
| AwaitCreate (addedGroups : list string) (answer : Outcome UserContract.t)
    (* suspended at [await apiClient.groupUser.create(...)], line 259: the
       call is in flight, and will settle as [answer] *)
| Settled (result : Outcome (list string)).
    (* returned, line 265, or thrown: the promise of the turn is settled *)

(** What can be observed of the group-add calls: the [i]-th turn issues its
    call, or the call of the [i]-th turn completes. *)
Inductive Event :=
| Begin (i : nat) (group : string)
| Complete (i : nat) (group : string).

Record State (S : Type) := mkState {
  turns : list Turn;
  world : World S
}.
Arguments mkState {S} turns world.
Arguments turns {S} _.
Arguments world {S} _.

(** The promise [prev] of turn [i]: [Promise.resolve([])] for the first
    turn, the promise of turn [i - 1] for the others; [None] while that
    promise is pending.  The promise [reduce] returns, which line 255
    awaits, is [prev] at [length groups]. *)
Definition prev (turns : list Turn) (i : nat) : option (Outcome (list string)) :=
  match i with
  | O => Some (Fulfilled [])
  | S j =>
      match turns !! j with
      | Some (Settled result) => Some result
      | _ => None
      end
  end.

(** When [reduce] returns. *)
Definition initial {S} (groups : list string) (w : World S) : State S :=
  mkState (replicate (length groups) AwaitPrev) w.

Definition settle (addedGroups : list string) (group : string)
    (answer : Outcome UserContract.t) : Outcome (list string) :=
  match answer with
  | Fulfilled _ => Fulfilled (addedGroups ++ [group])
  | Rejected e => Rejected e
  end.

Inductive step {S} (apiClient : ApiManagementClient S) (user_name : string)
    (groups : list string) : State S → option Event → State S → Prop :=
| step_begin i group addedGroups answer turns w w' :
    (* [prev] is fulfilled: the turn resumes from line 256 and issues its
       call, line 259 *)
    groups !! i = Some group →
    turns !! i = Some AwaitPrev →
    prev turns i = Some (Fulfilled addedGroups) →
    sdk (GroupUserCreate group user_name)
        (groupUser_create apiClient group user_name) w = (answer, w') →
    step apiClient user_name groups
      (mkState turns w)
      (Some (Begin i group))
      (mkState (<[i := AwaitCreate addedGroups answer]> turns) w')
| step_rethrow i e turns w :
    (* [prev] is rejected: [await prev] throws and the turn rejects *)
    turns !! i = Some AwaitPrev →
    prev turns i = Some (Rejected e) →
    step apiClient user_name groups
      (mkState turns w)
      None
      (mkState (<[i := Settled (Rejected e)]> turns) w)
| step_complete i group addedGroups answer turns w :
    (* the call completes: the turn returns [[...addedGroups, group]], line
       265, or throws what the call was rejected with *)
    groups !! i = Some group →
    turns !! i = Some (AwaitCreate addedGroups answer) →
    step apiClient user_name groups
      (mkState turns w)
      (Some (Complete i group))
      (mkState (<[i := Settled (settle addedGroups group answer)]> turns) w).

(** The runs from a state, with the events observed. *)
Inductive run {S} (apiClient : ApiManagementClient S) (user_name : string)
    (groups : list string) (st0 : State S) : list Event → State S → Prop :=
| run_here : run apiClient user_name groups st0 [] st0
| run_then events st ev st' :
    run apiClient user_name groups st0 events st →
    step apiClient user_name groups st ev st' →
    run apiClient user_name groups st0 (events ++ option_list ev) st'.

(** The calls one after the other: the first [k] turns, each begun and
    completed before the next. *)
Definition one_by_one (groups : list string) (k : nat) : list Event :=
  flat_map (λ i, match groups !! i with
                 | Some group => [Begin i group; Complete i group]
                 | None => []
                 end) (seq 0 k).

Definition in_flight (turn : Turn) : Prop :=
  match turn with AwaitCreate _ _ => True | _ => False end.

End Reduce.

(** ** Test doubles

    A small management service and runtime, used to run the helpers on
    concrete inputs.  The service keeps one subscription, ["sub-1"], owned by
    ["alice"], whose keys carry a version number that each regeneration
    increments; the groups of the one user; and a clock. *)

Module Double.

Record Service := mkService {
  keyVersion : Z;
  memberOf : list string;
  clock : Z
}.

Definition notFound : Error := mkError "ResourceNotFound".

Definition theSubscription (s : Service) : SubscriptionContract.t :=
  {| SubscriptionContract.name := Some "sub-1";
     SubscriptionContract.userId := "alice";
     SubscriptionContract.productId := "/products/starter";
     SubscriptionContract.displayName := Some "sub-1";
     SubscriptionContract.state := "active";
     SubscriptionContract.primaryKey := "primary-" +:+ string_of_number (keyVersion s);
     SubscriptionContract.secondaryKey := "secondary-" +:+ string_of_number (keyVersion s) |}.

Definition created (subscriptionId : string)
    (p : SubscriptionCreateParameters.t) : SubscriptionContract.t :=
  {| SubscriptionContract.name := Some subscriptionId;
     SubscriptionContract.userId := SubscriptionCreateParameters.userId p;
     SubscriptionContract.productId := SubscriptionCreateParameters.productId p;
     SubscriptionContract.displayName := Some (SubscriptionCreateParameters.displayName p);
     SubscriptionContract.state := default "submitted" (SubscriptionCreateParameters.state p);
     SubscriptionContract.primaryKey := "primary-0";
     SubscriptionContract.secondaryKey := "secondary-0" |}.

Definition theUser : UserContract.t :=
  {| UserContract.id := Some "/users/alice";
     UserContract.name := Some "alice";
     UserContract.email := Some "alice@example.com" |}.

Definition group (n : string) : GroupContract.t :=
  {| GroupContract.name := Some n; GroupContract.displayName := n |}.

Definition bump (s : Service) : Service :=
  {| keyVersion := keyVersion s + 1; memberOf := memberOf s; clock := clock s |}.

Definition join (g : string) (s : Service) : Service :=
  if bool_decide (g ∈ memberOf s) then s
  else {| keyVersion := keyVersion s; memberOf := memberOf s ++ [g]; clock := clock s |}.

(** The client: ["sub-1"] is the only subscription, ["starter"] the only
    product with an id, ["draft"] a product without one; joining the group
    ["closed"] is refused. *)
Definition apiClient : ApiManagementClient Service :=
  {| subscription_get := λ subscriptionId s,
       if String.eqb subscriptionId "sub-1"
       then (Fulfilled (theSubscription s), s)
       else (Rejected notFound, s);
     subscription_regeneratePrimaryKey := λ subscriptionId s,
       if String.eqb subscriptionId "sub-1"
       then (Fulfilled (), bump s)
       else (Rejected notFound, s);
     subscription_regenerateSecondaryKey := λ subscriptionId s,
       if String.eqb subscriptionId "sub-1"
       then (Fulfilled (), bump s)
       else (Rejected notFound, s);
     subscription_createOrUpdate := λ subscriptionId p s,
       (Fulfilled (created subscriptionId p), s);
     product_get := λ productName s,
       if String.eqb productName "starter"
       then (Fulfilled (Some {| ProductContract.id := Some "/products/starter";
                                ProductContract.name := Some "starter";
                                ProductContract.displayName := "Starter" |}), s)
       else if String.eqb productName "draft"
       then (Fulfilled (Some {| ProductContract.id := None;
                                ProductContract.name := Some "draft";
                                ProductContract.displayName := "Draft" |}), s)
       else (Fulfilled None, s);
     userGroup_list := λ userName s, (Fulfilled (group <$> memberOf s), s);
     groupUser_create := λ g userName s,
       if String.eqb g "closed"
       then (Rejected (mkError "Forbidden"), s)
       else (Fulfilled theUser, join g s) |}.

Definition freshToken (s : Service) : TokenResponse :=
  {| accessToken := "fresh"; expiresOn := Some (clock s + 3600000) |}.

Definition runtime : Runtime Service :=
  {| Date_now := λ s, (clock s, s);
     loginWithAppServiceMSI := λ s, (Fulfilled (mkCreds "https://management.azure.com/"), s);
     credentials_getToken := λ _ s, (callback_tok (freshToken s), s);
     ulid := λ s, ("01ARZ3NDEKTSV4RRFFQ69G5FAV", s) |}.

(** The service at time 1000, the user in group ["A"], nothing called yet. *)
Definition world0 : World Service :=
  mkWorld {| keyVersion := 0; memberOf := ["A"]; clock := 1000 |} [].

(** A cached pair still valid for a second, and one expired for half a
    second, at time 1000. *)
Definition validCreds : ITokenAndCredentials :=
  {| token := {| accessToken := "cached"; expiresOn := Some 2000 |};
     loginCreds := mkCreds "https://management.azure.com/" |}.

Definition expiredCreds : ITokenAndCredentials :=
  {| token := {| accessToken := "stale"; expiresOn := Some 500 |};
     loginCreds := mkCreds "https://management.azure.com/" |}.

End Double.

(** ** Vocabulary of the properties *)

(** The ownership check of [getUserSubscription], line 96, passes. *)
Definition owned_by (userId : string) (subscription : SubscriptionContract.t) : Prop :=
  SubscriptionContract.userId subscription = userId
  ∧ truthy (SubscriptionContract.name subscription) = true.

#[global] Instance owned_by_dec userId subscription :
  Decision (owned_by userId subscription).
Proof. unfold owned_by. apply _. Defined.

(** The service after [groupUser.create] has been called for each of
    [groups] in turn and has accepted each; [None] when it refuses one. *)
Fixpoint joined {S} (apiClient : ApiManagementClient S) (user_name : string)
    (groups : list string) (s : S) : option S :=
  match groups with
  | [] => Some s
  | group :: groups =>
      match groupUser_create apiClient group user_name s with
      | (Fulfilled _, s') => joined apiClient user_name groups s'
      | (Rejected _, _) => None
      end
  end.

(** The journal entries of the group-add calls for [groups], in order. *)
Definition group_adds (user_name : string) (groups : list string) : list Call :=
  (λ group, GroupUserCreate group user_name) <$> groups.

(** Vocabulary for the runs of the [reduce] machine. *)

Section ReduceInvariant.
Context {S : Type} (apiClient : ApiManagementClient S) (user_name : string).
Context (groups : list string) (w0 : World S).
#[local] Open Scope nat_scope.

(** The [reduce] run in one go over the first [k] groups. *)
Definition reduced (k : nat) : Outcome (list string) * World S :=
  foldl (Apim.addGroup apiClient user_name) (resolve []) (take k groups) w0.

(** The first [k] turns have returned, each with the groups up to its own. *)
Definition returned (turns : list Reduce.Turn) (k : nat) : Prop :=
  ∀ j, j < k →
       turns !! j = Some (Reduce.Settled (Fulfilled (take (Datatypes.S j) groups))).

(** The turns from [m] on have not moved. *)
Definition waiting (turns : list Reduce.Turn) (m : nat) : Prop :=
  ∀ j, m ≤ j → j < length groups → turns !! j = Some Reduce.AwaitPrev.

(** The states a run goes through, with the events seen so far: between
    two calls; during the call of turn [k]; after the call of turn [k] was
    refused, the refusal rethrown by the turns up to [m]. *)
Inductive reachable : list Reduce.Event → Reduce.State S → Prop :=
| between_calls k turns w :
    length turns = length groups → k ≤ length groups →
    returned turns k → waiting turns k →
    reduced k = (Fulfilled (take k groups), w) →
    reachable (Reduce.one_by_one groups k) (Reduce.mkState turns w)
| during_call k group answer turns w :
    length turns = length groups → groups !! k = Some group →
    returned turns k →
    turns !! k = Some (Reduce.AwaitCreate (take k groups) answer) →
    waiting turns (Datatypes.S k) →
    reduced (Datatypes.S k) = (Reduce.settle (take k groups) group answer, w) →
    reachable (Reduce.one_by_one groups k ++ [Reduce.Begin k group])
      (Reduce.mkState turns w)
| after_refusal k m e turns w :
    length turns = length groups → k < m → m ≤ length groups →
    returned turns k →
    (∀ j, k ≤ j → j < m → turns !! j = Some (Reduce.Settled (Rejected e))) →
    waiting turns m →
    reduced (Datatypes.S k) = (Rejected e, w) →
    reachable (Reduce.one_by_one groups (Datatypes.S k)) (Reduce.mkState turns w).

(** The steps a turn has still to take. *)
Definition steps_left (turn : Reduce.Turn) : nat :=
  match turn with
  | Reduce.AwaitPrev => 2
  | Reduce.AwaitCreate _ _ => 1
  | Reduce.Settled _ => 0
  end.

End ReduceInvariant.

(** The fresh login of [loginToApim], lines 76-82, on its own. *)
Definition freshLogin {S} (rt : Runtime S) : Async S ITokenAndCredentials :=
  let* loginCreds := await sdk LoginWithAppServiceMSI (loginWithAppServiceMSI rt) in
  let* token := await Apim.getToken rt loginCreds in
  resolve {| loginCreds := loginCreds; token := token |}.

(** ** The helpers and request types outside the claims *)

(** The result of [getApimUser]: [UserContract & { id: string; name:
    string }], built as [{ id: user.id, name: user.name, ...user }]. *)
Module ApimUser.
Record t := mk {
  id : string;
  name : string;
  contract : UserContract.t
}.
End ApimUser.

(** [apiClient.user], the part of [ApiManagementClient] that [getApimUser]
    alone uses.  [listByService] is given the filter; what it answers is
    tested with [!results], hence the option. *)
Record UserOperations (S : Type) := mkUserOperations {
  user_listByService : string → S → Outcome (option (list UserContract.t)) * S
}.
Arguments user_listByService {S} _.

(** A call of the SDK that the journal does not follow: the journal keeps
    to the calls of [Call]. *)
Definition unjournaled {S A} (op : S → Outcome A * S) : Async S A :=
  λ w, let '(r, s) := op (service w) in (r, mkWorld s (calls w)).

Module ApimUsers.

(** The filter of line 174. *)
Definition emailFilter (email : string) : string :=
  "email eq '" +:+ email +:+ "'".

(** [getApimUser(apiClient, email)], lines 164-186. *)
Definition getApimUser {S} (apiClient : UserOperations S) (email : string)
    : Async S (option ApimUser.t) :=
  let* results := await unjournaled (user_listByService apiClient (emailFilter email)) in
  match results with
  | None | Some [] => resolve None
  | Some (user :: _) =>
      if negb (truthy (UserContract.id user)) || negb (truthy (UserContract.name user))
      then resolve None
      else resolve (Some {| ApimUser.id := default "" (UserContract.id user);
                            ApimUser.name := default "" (UserContract.name user);
                            ApimUser.contract := user |})
  end.

End ApimUsers.

(** The request types of [APIClient], [src/api_client.ts] lines 141-183,
    with their [method] and their [url]; the parameters are cut down to the
    one field the [url] reads. *)
Module ApiRequests.

Record RequestType (P : Type) := mkRequestType {
  method : string;
  url : P → string
}.
Arguments mkRequestType {P} method url.
Arguments method {P} _.
Arguments url {P} _.

Definition getServiceT : RequestType string :=
  {| method := "get"; url := λ id, "/adm/services/" +:+ id |}.

Definition sendMessageT : RequestType string :=
  {| method := "post"; url := λ fiscalCode, "/api/v1/messages/" +:+ fiscalCode |}.

Definition createDevelopmentProfileT : RequestType string :=
  {| method := "post";
     url := λ fiscalCode, "/adm/development-profiles/" +:+ fiscalCode |}.

Definition createServiceT : RequestType () :=
  {| method := "post"; url := λ _, "/adm/services" |}.

Definition updateServiceT : RequestType string :=
  {| method := "put"; url := λ serviceId, "/adm/services/" +:+ serviceId |}.

(** What the server tells requests apart by. *)
Definition requestLine {P} (t : RequestType P) (p : P) : string * string :=
  (method t, url t p).

(** A call of one of the five operations [APIClient] returns, lines
    185-194, with the parameter its url reads. *)
Inductive Operation :=
| createDevelopmentProfile (fiscalCode : string)
| createService
| getService (id : string)
| sendMessage (fiscalCode : string)
| updateService (serviceId : string).

Definition requestLineOf (operation : Operation) : string * string :=
  match operation with
  | createDevelopmentProfile fiscalCode => requestLine createDevelopmentProfileT fiscalCode
  | createService => requestLine createServiceT ()
  | getService id => requestLine getServiceT id
  | sendMessage fiscalCode => requestLine sendMessageT fiscalCode
  | updateService serviceId => requestLine updateServiceT serviceId
  end.

End ApiRequests.

(** More test doubles: a management service in an outage, which answers
    the reads of ["alice"] and refuses everything else; one on which a
    subscription changes hands when its key is regenerated; and a user
    directory with two records for one address, the first without an id. *)
Module Outage.

Definition unavailable : Error := mkError "ServiceUnavailable".

Definition apiClient : ApiManagementClient Double.Service :=
  {| subscription_get := subscription_get Double.apiClient;
     subscription_regeneratePrimaryKey := λ _ s, (Rejected unavailable, s);
     subscription_regenerateSecondaryKey := λ _ s, (Rejected unavailable, s);
     subscription_createOrUpdate := λ _ _ s, (Rejected unavailable, s);
     product_get := λ productName s,
       if String.eqb productName "starter"
       then product_get Double.apiClient productName s
       else (Rejected unavailable, s);
     userGroup_list := λ userName s,
       if String.eqb userName "alice"
       then userGroup_list Double.apiClient userName s
       else (Rejected unavailable, s);
     groupUser_create := λ _ _ s, (Rejected unavailable, s) |}.

Definition runtime : Runtime Double.Service :=
  {| Date_now := Date_now Double.runtime;
     loginWithAppServiceMSI := λ s,
       if Double.clock s <? 2000
       then loginWithAppServiceMSI Double.runtime s
       else (Rejected unavailable, s);
     credentials_getToken := λ _ s, (callback_err unavailable, s);
     ulid := ulid Double.runtime |}.

End Outage.

Module Handover.

Definition theSubscription (s : Double.Service) : SubscriptionContract.t :=
  {| SubscriptionContract.name := Some "sub-1";
     SubscriptionContract.userId := if Double.keyVersion s =? 0 then "alice" else "bob";
     SubscriptionContract.productId := "/products/starter";
     SubscriptionContract.displayName := Some "sub-1";
     SubscriptionContract.state := "active";
     SubscriptionContract.primaryKey :=
       "primary-" +:+ string_of_number (Double.keyVersion s);
     SubscriptionContract.secondaryKey :=
       "secondary-" +:+ string_of_number (Double.keyVersion s) |}.

Definition apiClient : ApiManagementClient Double.Service :=
  {| subscription_get := λ _ s, (Fulfilled (theSubscription s), s);
     subscription_regeneratePrimaryKey := λ _ s, (Fulfilled (), Double.bump s);
     subscription_regenerateSecondaryKey := λ _ s, (Fulfilled (), Double.bump s);
     subscription_createOrUpdate := subscription_createOrUpdate Double.apiClient;
     product_get := product_get Double.apiClient;
     userGroup_list := userGroup_list Double.apiClient;
     groupUser_create := groupUser_create Double.apiClient |}.

End Handover.

Module Directory.

Definition pending : UserContract.t :=
  {| UserContract.id := None;
     UserContract.name := Some "alice-pending";
     UserContract.email := Some "alice@example.com" |}.

Definition users : UserOperations Double.Service :=
  {| user_listByService := λ filter s,
       if String.eqb filter "email eq 'alice@example.com'"
       then (Fulfilled (Some [pending; Double.theUser]), s)
       else if String.eqb filter "email eq 'carol@example.com'"
       then (Fulfilled (Some [Double.theUser; pending]), s)
       else (Fulfilled (Some []), s) |}.

End Directory.

(** * Properties *)

(** ** [toEither] *)

Section ToEither.
Import ApiClient.
Context {V : Type}.

Lemma toEither_undefined :
  toEither (V := V) None = left (mkError "Response is empty").
Proof. reflexivity. Qed.

Lemma toEither_ok (r : ApiResponseType V) :
  status r = 200 ∨ status r = 201 → toEither (Some r) = right (value r).
Proof.
  intros [H | H]; unfold toEither; rewrite H; reflexivity.
Qed.

Lemma toEither_other (r : ApiResponseType V) :
  status r ≠ 200 → status r ≠ 201 →
  toEither (Some r)
  = left (mkError ("Error parsing response: " +:+ string_of_number (status r))).
Proof.
  intros H1 H2. unfold toEither.
  destruct (Z.eqb_spec (status r) 200); [done |].
  destruct (Z.eqb_spec (status r) 201); [done |].
  reflexivity.
Qed.

End ToEither.

Example toEither_401 :
  ApiClient.toEither (Some (ApiClient.mkResponse 401 "unauthorized"))
  = left (mkError "Error parsing response: 401").
Proof. reflexivity. Qed.

(** C9. [toEither(r)] is [right(r.value)] exactly when [r] is defined and
    its status is 200 or 201; an undefined [r] gives the error "Response is
    empty", any other status an error whose message ends with that status;
    so a success value only ever comes from a defined response with status
    200 or 201. *)
Theorem toEither_spec (V : Type) (r : option (ApiClient.ApiResponseType V)) :
  (∀ v, ApiClient.toEither r = right v ↔
        ∃ res, r = Some res
               ∧ (ApiClient.status res = 200 ∨ ApiClient.status res = 201)
               ∧ v = ApiClient.value res)
  ∧ (r = None ↔ ApiClient.toEither r = left (mkError "Response is empty"))
  ∧ (∀ res, r = Some res →
            ApiClient.status res ≠ 200 → ApiClient.status res ≠ 201 →
            ApiClient.toEither r
            = left (mkError ("Error parsing response: "
                             +:+ string_of_number (ApiClient.status res))))
  ∧ (isRight (ApiClient.toEither r) = true →
     ∃ res, r = Some res
            ∧ (ApiClient.status res = 200 ∨ ApiClient.status res = 201)).
Proof.
  split_and!.
  - intros v. split.
    + destruct r as [res |]; [| done].
      destruct (decide (ApiClient.status res = 200 ∨ ApiClient.status res = 201))
        as [Hok | Hko].
      * rewrite (toEither_ok _ Hok). intros [= <-]. eauto.
      * rewrite toEither_other by tauto. done.
    + intros (res & -> & Hok & ->). by apply toEither_ok.
  - split; [by intros -> |].
    destruct r as [res |]; [| done].
    unfold ApiClient.toEither.
    destruct (_ || _); [done |]. simpl. intros H. discriminate H.
  - intros res -> H1 H2. by apply toEither_other.
  - destruct r as [res |]; [| done].
    destruct (decide (ApiClient.status res = 200 ∨ ApiClient.status res = 201))
      as [Hok | Hko]; [eauto |].
    rewrite toEither_other by tauto. done.
Qed.

(** ** Running [async] functions *)

Ltac run_async :=
  unfold await, sdk, sync, resolve; simpl.

(** ** The subscription helpers *)

Section Subscriptions.
Context {S : Type} (apiClient : ApiManagementClient S).
Implicit Types (subscriptionId userId : string) (w : World S).

Lemma truthy_Some (x : option string) :
  truthy x = true ↔ ∃ s, x = Some s ∧ s ≠ "".
Proof.
  destruct x as [s |]; simpl.
  - rewrite negb_true_iff. split.
    + intros H. exists s. split; [done |]. intros ->. done.
    + intros (s' & [= <-] & Hne). by apply String.eqb_neq.
  - split; [done | intros (s & H & _); done].
Qed.

(** What [getUserSubscription] does, by the answer of [subscription.get]. *)
Lemma getUserSubscription_run subscriptionId userId w :
  Apim.getUserSubscription apiClient subscriptionId userId w =
  match subscription_get apiClient subscriptionId (service w) with
  | (Fulfilled subscription, s) =>
      (Fulfilled
         (if decide (owned_by userId subscription)
          then Some {| name := default "" (SubscriptionContract.name subscription);
                       contract := subscription |}
          else None),
       mkWorld s (calls w ++ [SubscriptionGet subscriptionId]))
  | (Rejected e, s) =>
      (Rejected e, mkWorld s (calls w ++ [SubscriptionGet subscriptionId]))
  end.
Proof.
  unfold Apim.getUserSubscription. run_async.
  destruct (subscription_get _ _ _) as [[subscription | e] s]; [| done].
  unfold owned_by.
  destruct (decide (_ ∧ _)) as [[Hu Hn] | Hno].
  - rewrite Hn, bool_decide_eq_false_2 by (by intros ?). done.
  - destruct (decide (SubscriptionContract.userId subscription = userId)) as [Hu |Hu].
    + rewrite bool_decide_eq_false_2 by (by intros ?).
      destruct (truthy _); [tauto | done].
    + by rewrite bool_decide_eq_true_2.
Qed.

Lemma getUserSubscription_calls subscriptionId userId w :
  calls (Apim.getUserSubscription apiClient subscriptionId userId w).2
  = calls w ++ [SubscriptionGet subscriptionId].
Proof.
  rewrite getUserSubscription_run.
  by destruct (subscription_get _ _ _) as [[subscription | e] s].
Qed.

Lemma getUserSubscription_Some subscriptionId userId w r w' :
  Apim.getUserSubscription apiClient subscriptionId userId w = (Fulfilled (Some r), w') →
  owned_by userId (contract r)
  ∧ SubscriptionContract.name (contract r) = Some (name r)
  ∧ name r ≠ "".
Proof.
  rewrite getUserSubscription_run.
  destruct (subscription_get _ _ _) as [[subscription | e] s]; [| done].
  destruct (decide _) as [Ho | Ho]; [| done].
  intros [= <- <-]. simpl. split; [done |].
  destruct Ho as [_ (n & Hn & Hne)%truthy_Some]. by rewrite Hn.
Qed.

(** What the two regenerate helpers do, by the result of the ownership
    check and the answer of the regenerate call. *)
Lemma regeneratePrimaryKey_run subscriptionId userId w :
  Apim.regeneratePrimaryKey apiClient subscriptionId userId w =
  match Apim.getUserSubscription apiClient subscriptionId userId w with
  | (Fulfilled None, w1) => (Fulfilled None, w1)
  | (Fulfilled (Some _), w1) =>
      match subscription_regeneratePrimaryKey apiClient subscriptionId (service w1) with
      | (Fulfilled _, s2) =>
          Apim.getUserSubscription apiClient subscriptionId userId
            (mkWorld s2 (calls w1 ++ [SubscriptionRegeneratePrimaryKey subscriptionId]))
      | (Rejected e, s2) =>
          (Rejected e,
           mkWorld s2 (calls w1 ++ [SubscriptionRegeneratePrimaryKey subscriptionId]))
      end
  | (Rejected e, w1) => (Rejected e, w1)
  end.
Proof.
  unfold Apim.regeneratePrimaryKey, await at 1.
  destruct (Apim.getUserSubscription _ _ _ w) as [[[r |] | e] w1]; try done.
  run_async. by destruct (subscription_regeneratePrimaryKey _ _ _) as [[[] | e] s2].
Qed.

Lemma regenerateSecondaryKey_run subscriptionId userId w :
  Apim.regenerateSecondaryKey apiClient subscriptionId userId w =
  match Apim.getUserSubscription apiClient subscriptionId userId w with
  | (Fulfilled None, w1) => (Fulfilled None, w1)
  | (Fulfilled (Some _), w1) =>
      match subscription_regenerateSecondaryKey apiClient subscriptionId (service w1) with
      | (Fulfilled _, s2) =>
          Apim.getUserSubscription apiClient subscriptionId userId
            (mkWorld s2 (calls w1 ++ [SubscriptionRegenerateSecondaryKey subscriptionId]))
      | (Rejected e, s2) =>
          (Rejected e,
           mkWorld s2 (calls w1 ++ [SubscriptionRegenerateSecondaryKey subscriptionId]))
      end
  | (Rejected e, w1) => (Rejected e, w1)
  end.
Proof.
  unfold Apim.regenerateSecondaryKey, await at 1.
  destruct (Apim.getUserSubscription _ _ _ w) as [[[r |] | e] w1]; try done.
  run_async. by destruct (subscription_regenerateSecondaryKey _ _ _) as [[[] | e] s2].
Qed.

Lemma not_owned_by userId (subscription : SubscriptionContract.t) :
  SubscriptionContract.userId subscription ≠ userId
  ∨ truthy (SubscriptionContract.name subscription) = false →
  ¬ owned_by userId subscription.
Proof. intros [H | H] [Hu Hn]; [done | congruence]. Qed.

Lemma getUserSubscription_None subscriptionId userId w subscription s :
  subscription_get apiClient subscriptionId (service w) = (Fulfilled subscription, s) →
  SubscriptionContract.userId subscription ≠ userId
  ∨ truthy (SubscriptionContract.name subscription) = false →
  Apim.getUserSubscription apiClient subscriptionId userId w
  = (Fulfilled None, mkWorld s (calls w ++ [SubscriptionGet subscriptionId])).
Proof.
  intros Hget Hno%(not_owned_by userId).
  rewrite getUserSubscription_run, Hget.
  by destruct (decide _).
Qed.

End Subscriptions.

(** C7. [getUserSubscription] answers [none] whenever the record fetched
    belongs to another user or has no usable name, although the record
    exists; and every [some(result)] it answers has [result.userId] equal to
    the requested [userId] and a non-empty [name], that of the record. *)
Theorem getUserSubscription_ownership {S} (apiClient : ApiManagementClient S)
    (subscriptionId userId : string) (w : World S) :
  (∀ subscription s,
     subscription_get apiClient subscriptionId (service w) = (Fulfilled subscription, s) →
     SubscriptionContract.userId subscription ≠ userId
     ∨ truthy (SubscriptionContract.name subscription) = false →
     Apim.getUserSubscription apiClient subscriptionId userId w
     = (Fulfilled None, mkWorld s (calls w ++ [SubscriptionGet subscriptionId])))
  ∧ (∀ result w',
       Apim.getUserSubscription apiClient subscriptionId userId w
       = (Fulfilled (Some result), w') →
       SubscriptionContract.userId (contract result) = userId
       ∧ name result ≠ ""
       ∧ SubscriptionContract.name (contract result) = Some (name result)).
Proof.
  split.
  - intros subscription s Hget Hno.
    exact (getUserSubscription_None apiClient subscriptionId userId w
             subscription s Hget Hno).
  - intros result w' [[Hu _] [Hn Hne]]%getUserSubscription_Some. done.
Qed.

Lemma getUserSubscription_ownership_witness :
  Apim.getUserSubscription Double.apiClient "sub-1" "bob" Double.world0
  = (Fulfilled None,
     mkWorld (service Double.world0) [SubscriptionGet "sub-1"])
  ∧ ∃ result,
      (Apim.getUserSubscription Double.apiClient "sub-1" "alice" Double.world0).1
      = Fulfilled (Some result)
      ∧ SubscriptionContract.userId (contract result) = "alice"
      ∧ name result ≠ "".
Proof.
  split.
  - apply (getUserSubscription_ownership Double.apiClient "sub-1" "bob" Double.world0)
      with (subscription := Double.theSubscription (service Double.world0)).
    + reflexivity.
    + left. vm_compute. discriminate.
  - eexists. split; [reflexivity |].
    destruct (getUserSubscription_ownership Double.apiClient "sub-1" "alice" Double.world0)
      as [_ H].
    edestruct H as (Hu & Hn & _); [reflexivity |]. split; [exact Hu | exact Hn].
Defined.

(** C10. Every [some(result)] of [regeneratePrimaryKey] or
    [regenerateSecondaryKey] has [result.userId] equal to the requested
    [userId] and a non-empty [name]: both return what the closing
    [getUserSubscription] returns. *)
Theorem regenerate_result_owned {S} (apiClient : ApiManagementClient S)
    (subscriptionId userId : string) (w w' : World S) (result : NamedSubscription) :
  Apim.regeneratePrimaryKey apiClient subscriptionId userId w
  = (Fulfilled (Some result), w')
  ∨ Apim.regenerateSecondaryKey apiClient subscriptionId userId w
    = (Fulfilled (Some result), w') →
  SubscriptionContract.userId (contract result) = userId ∧ name result ≠ "".
Proof.
  intros [H | H].
  - rewrite regeneratePrimaryKey_run in H.
    destruct (Apim.getUserSubscription _ _ _ w) as [[[r |] | e] w1]; try done.
    destruct (subscription_regeneratePrimaryKey _ _ _) as [[[] | e] s2]; [| done].
    apply getUserSubscription_Some in H as [[Hu _] [_ Hne]]. done.
  - rewrite regenerateSecondaryKey_run in H.
    destruct (Apim.getUserSubscription _ _ _ w) as [[[r |] | e] w1]; try done.
    destruct (subscription_regenerateSecondaryKey _ _ _) as [[[] | e] s2]; [| done].
    apply getUserSubscription_Some in H as [[Hu _] [_ Hne]]. done.
Qed.

Lemma regenerate_result_owned_witness :
  ∃ result w',
    Apim.regeneratePrimaryKey Double.apiClient "sub-1" "alice" Double.world0
    = (Fulfilled (Some result), w')
    ∧ SubscriptionContract.userId (contract result) = "alice"
    ∧ name result ≠ "".
Proof.
  do 2 eexists. split; [reflexivity |].
  eapply (regenerate_result_owned Double.apiClient "sub-1" "alice" Double.world0).
  left. reflexivity.
Defined.

(** C5, as the code has it.  When the record fetched belongs to another user
    or has no usable name, both regenerate helpers answer [none] having
    called [subscription.get] only; when the fetch itself fails, as for a
    subscription that does not exist, both reject with that failure, again
    having called [subscription.get] only.  Either way the service is left
    as the fetch left it and no regenerate call is issued. *)
Theorem regenerate_not_owned {S} (apiClient : ApiManagementClient S)
    (subscriptionId userId : string) (w : World S) :
  (∀ subscription s,
     subscription_get apiClient subscriptionId (service w) = (Fulfilled subscription, s) →
     SubscriptionContract.userId subscription ≠ userId
     ∨ truthy (SubscriptionContract.name subscription) = false →
     Apim.regeneratePrimaryKey apiClient subscriptionId userId w
     = (Fulfilled None, mkWorld s (calls w ++ [SubscriptionGet subscriptionId]))
     ∧ Apim.regenerateSecondaryKey apiClient subscriptionId userId w
       = (Fulfilled None, mkWorld s (calls w ++ [SubscriptionGet subscriptionId])))
  ∧ (∀ e s,
       subscription_get apiClient subscriptionId (service w) = (Rejected e, s) →
       Apim.regeneratePrimaryKey apiClient subscriptionId userId w
       = (Rejected e, mkWorld s (calls w ++ [SubscriptionGet subscriptionId]))
       ∧ Apim.regenerateSecondaryKey apiClient subscriptionId userId w
         = (Rejected e, mkWorld s (calls w ++ [SubscriptionGet subscriptionId]))).
Proof.
  split.
  - intros subscription s Hget Hno.
    pose proof (getUserSubscription_None apiClient subscriptionId userId w
                  subscription s Hget Hno) as Hnone.
    by rewrite regeneratePrimaryKey_run, regenerateSecondaryKey_run, Hnone.
  - intros e s Hget.
    rewrite regeneratePrimaryKey_run, regenerateSecondaryKey_run,
      getUserSubscription_run, Hget. done.
Qed.

Lemma regenerate_not_owned_witness :
  (Apim.regeneratePrimaryKey Double.apiClient "sub-1" "bob" Double.world0
   = (Fulfilled None, mkWorld (service Double.world0) [SubscriptionGet "sub-1"])
   ∧ Apim.regenerateSecondaryKey Double.apiClient "sub-1" "bob" Double.world0
     = (Fulfilled None, mkWorld (service Double.world0) [SubscriptionGet "sub-1"]))
  ∧ (Apim.regeneratePrimaryKey Double.apiClient "sub-2" "alice" Double.world0
     = (Rejected Double.notFound,
        mkWorld (service Double.world0) [SubscriptionGet "sub-2"])
     ∧ Apim.regenerateSecondaryKey Double.apiClient "sub-2" "alice" Double.world0
       = (Rejected Double.notFound,
          mkWorld (service Double.world0) [SubscriptionGet "sub-2"])).
Proof.
  split.
  - apply (regenerate_not_owned Double.apiClient "sub-1" "bob" Double.world0)
      with (subscription := Double.theSubscription (service Double.world0)).
    + reflexivity.
    + left. vm_compute. discriminate.
  - apply (regenerate_not_owned Double.apiClient "sub-2" "alice" Double.world0).
    reflexivity.
Defined.

(** C5 as stated fails for a subscription that does not exist: the service
    refuses the fetch, and [regeneratePrimaryKey] and [regenerateSecondaryKey]
    reject with that refusal rather than answer [none]; no regenerate call
    is issued. *)
Lemma regenerate_missing_subscription_rejects :
  (Apim.regeneratePrimaryKey Double.apiClient "sub-2" "alice" Double.world0).1
  = Rejected Double.notFound
  ∧ (Apim.regenerateSecondaryKey Double.apiClient "sub-2" "alice" Double.world0).1
    = Rejected Double.notFound
  ∧ (Apim.regeneratePrimaryKey Double.apiClient "sub-2" "alice" Double.world0).1
    ≠ Fulfilled None
  ∧ (Apim.regenerateSecondaryKey Double.apiClient "sub-2" "alice" Double.world0).1
    ≠ Fulfilled None
  ∧ filter is_regenerate
      (calls (Apim.regeneratePrimaryKey Double.apiClient "sub-2" "alice" Double.world0).2)
    = [].
Proof. split_and!; [reflexivity | reflexivity | discriminate | discriminate | reflexivity]. Qed.

(** C6. On a subscription the requesting user owns, [regeneratePrimaryKey]
    calls [subscription.get], then [subscription.regeneratePrimaryKey], then
    [subscription.get] again, and answers the record of that second fetch,
    taken after the regeneration; so when the service has changed the
    primary key, the key of the record returned differs from the key the
    record had before the call. *)
Theorem regeneratePrimaryKey_refetches {S} (apiClient : ApiManagementClient S)
    (subscriptionId userId : string) (w : World S)
    (before after : SubscriptionContract.t) (s1 s2 s3 : S) :
  subscription_get apiClient subscriptionId (service w) = (Fulfilled before, s1) →
  owned_by userId before →
  subscription_regeneratePrimaryKey apiClient subscriptionId s1 = (Fulfilled (), s2) →
  subscription_get apiClient subscriptionId s2 = (Fulfilled after, s3) →
  owned_by userId after →
  SubscriptionContract.primaryKey after ≠ SubscriptionContract.primaryKey before →
  ∃ result,
    Apim.regeneratePrimaryKey apiClient subscriptionId userId w
    = (Fulfilled (Some result),
       mkWorld s3 (calls w ++ [SubscriptionGet subscriptionId;
                               SubscriptionRegeneratePrimaryKey subscriptionId;
                               SubscriptionGet subscriptionId]))
    ∧ contract result = after
    ∧ SubscriptionContract.primaryKey (contract result)
      ≠ SubscriptionContract.primaryKey before.
Proof.
  intros Hget1 Hown1 Hregen Hget2 Hown2 Hkey.
  rewrite regeneratePrimaryKey_run, getUserSubscription_run, Hget1.
  rewrite decide_True by done. simpl. rewrite Hregen.
  rewrite getUserSubscription_run. simpl. rewrite Hget2.
  rewrite decide_True by done.
  rewrite <- !(assoc_L (++)). simpl.
  eexists. split; [reflexivity |]. split; [reflexivity | exact Hkey].
Qed.

Lemma regeneratePrimaryKey_refetches_witness :
  ∃ result,
    Apim.regeneratePrimaryKey Double.apiClient "sub-1" "alice" Double.world0
    = (Fulfilled (Some result),
       mkWorld (Double.bump (service Double.world0))
         [SubscriptionGet "sub-1"; SubscriptionRegeneratePrimaryKey "sub-1";
          SubscriptionGet "sub-1"])
    ∧ contract result = Double.theSubscription (Double.bump (service Double.world0))
    ∧ SubscriptionContract.primaryKey (contract result) ≠ "primary-0".
Proof.
  apply (regeneratePrimaryKey_refetches Double.apiClient "sub-1" "alice" Double.world0
           (Double.theSubscription (service Double.world0))
           (Double.theSubscription (Double.bump (service Double.world0)))
           (service Double.world0)
           (Double.bump (service Double.world0))
           (Double.bump (service Double.world0))).
  - reflexivity.
  - split; reflexivity.
  - reflexivity.
  - reflexivity.
  - split; reflexivity.
  - vm_compute. discriminate.
Defined.

(** ** [addUserSubscriptionToProduct] *)

(** C8. When [product.get] answers no product, or one without a usable id,
    [addUserSubscriptionToProduct] answers [left] of an error having called
    nothing else; otherwise it takes a new identifier from [ulid()], calls
    [subscription.createOrUpdate] under that identifier with the identifier
    as display name, the id of the product, state ["active"] and the
    requested user, and answers [right] of the record the service returns. *)
Theorem addUserSubscriptionToProduct_spec {S} (rt : Runtime S)
    (apiClient : ApiManagementClient S) (userId productName : string)
    (w : World S) (product : option ProductContract.t) (s1 : S) :
  product_get apiClient productName (service w) = (Fulfilled product, s1) →
  (truthy (product ≫= ProductContract.id) = false →
   Apim.addUserSubscriptionToProduct rt apiClient userId productName w
   = (Fulfilled (left (mkError "Cannot find API management product for update")),
      mkWorld s1 (calls w ++ [ProductGet productName])))
  ∧ (∀ p product_id subscriptionId s2 subscription s3,
       product = Some p → ProductContract.id p = Some product_id → product_id ≠ "" →
       ulid rt s1 = (subscriptionId, s2) →
       subscription_createOrUpdate apiClient subscriptionId
         {| SubscriptionCreateParameters.displayName := subscriptionId;
            SubscriptionCreateParameters.productId := product_id;
            SubscriptionCreateParameters.state := Some "active";
            SubscriptionCreateParameters.userId := userId |} s2
       = (Fulfilled subscription, s3) →
       Apim.addUserSubscriptionToProduct rt apiClient userId productName w
       = (Fulfilled (right subscription),
          mkWorld s3
            (calls w ++
             [ProductGet productName;
              SubscriptionCreateOrUpdate subscriptionId
                {| SubscriptionCreateParameters.displayName := subscriptionId;
                   SubscriptionCreateParameters.productId := product_id;
                   SubscriptionCreateParameters.state := Some "active";
                   SubscriptionCreateParameters.userId := userId |}]))).
Proof.
  intros Hget. split.
  - intros Hid. unfold Apim.addUserSubscriptionToProduct. run_async.
    by rewrite Hget, Hid.
  - intros p product_id subscriptionId s2 subscription s3 -> Hid Hne Hulid Hcreate.
    unfold Apim.addUserSubscriptionToProduct. run_async.
    rewrite Hget. simpl. rewrite Hid. simpl.
    rewrite (proj2 (String.eqb_neq product_id "")) by done. simpl.
    rewrite Hulid. simpl. rewrite Hcreate.
    by rewrite <- (assoc_L (++)).
Qed.

Lemma addUserSubscriptionToProduct_spec_witness :
  Apim.addUserSubscriptionToProduct Double.runtime Double.apiClient "alice" "draft"
    Double.world0
  = (Fulfilled (left (mkError "Cannot find API management product for update")),
     mkWorld (service Double.world0) [ProductGet "draft"])
  ∧ ∃ subscription parameters,
      Apim.addUserSubscriptionToProduct Double.runtime Double.apiClient "alice" "starter"
        Double.world0
      = (Fulfilled (right subscription),
         mkWorld (service Double.world0)
           [ProductGet "starter";
            SubscriptionCreateOrUpdate "01ARZ3NDEKTSV4RRFFQ69G5FAV" parameters])
      ∧ SubscriptionCreateParameters.state parameters = Some "active"
      ∧ SubscriptionContract.state subscription = "active"
      ∧ SubscriptionContract.productId subscription = "/products/starter"
      ∧ SubscriptionContract.userId subscription = "alice".
Proof.
  split.
  - eapply (addUserSubscriptionToProduct_spec Double.runtime Double.apiClient
              "alice" "draft" Double.world0); reflexivity.
  - do 2 eexists. split.
    + eapply (addUserSubscriptionToProduct_spec Double.runtime Double.apiClient
                "alice" "starter" Double.world0);
        [reflexivity | reflexivity | reflexivity | discriminate
        | reflexivity | reflexivity].
    + repeat split.
Defined.

(** ** [loginToApim] *)

Section Login.
Context {S : Type} (rt : Runtime S).

Lemma freshLogin_calls (w : World S) :
  ∃ rest, calls (freshLogin rt w).2 = calls w ++ LoginWithAppServiceMSI :: rest.
Proof.
  unfold freshLogin, Apim.getToken. run_async.
  destruct (loginWithAppServiceMSI rt (service w)) as [[loginCreds | e] s1]; simpl.
  - destruct (credentials_getToken rt loginCreds s1) as [[err | tok] s2]; simpl;
      exists [GetToken loginCreds]; by rewrite <- (assoc_L (++)).
  - by exists [].
Qed.

(** Without a cached pair, a fresh login. *)
Lemma loginToApim_absent (w : World S) now s1 ignored s2 :
  Date_now rt (service w) = (now, s1) →
  Date_now rt s1 = (ignored, s2) →
  Apim.loginToApim rt None w = freshLogin rt (mkWorld s2 (calls w)).
Proof.
  intros H1 H2. unfold Apim.loginToApim, freshLogin. run_async.
  rewrite H1; simpl; rewrite H2; simpl.
  by destruct (now <=? 0).
Qed.

(** With a cached pair, the branch taken is decided by
    [tokenExpireTime >= Date.now()], line 56. *)
Lemma loginToApim_present (tokenCreds : ITokenAndCredentials) (w : World S)
    now s1 ignored s2 :
  Date_now rt (service w) = (now, s1) →
  Date_now rt s1 = (ignored, s2) →
  Apim.loginToApim rt (Some tokenCreds) w =
  if Apim.number_ge (expiresOn (token tokenCreds)) now
  then freshLogin rt (mkWorld s2 (calls w))
  else (Fulfilled tokenCreds, mkWorld s2 (calls w)).
Proof.
  intros H1 H2. unfold Apim.loginToApim, freshLogin. run_async.
  rewrite H1; simpl; rewrite H2; simpl.
  by destruct (Apim.number_ge _ _).
Qed.

End Login.

(** C1, what the code does instead.  The test of line 56 is the wrong way
    round: a cached pair whose token expires at or after the current time is
    discarded and a fresh login is made, and a cached pair whose token has
    already expired is returned as it is, without any login. *)
Theorem loginToApim_expiry_test_inverted {S} (rt : Runtime S)
    (tokenCreds : ITokenAndCredentials) (w : World S)
    (now ignored expiry : Z) (s1 s2 : S) :
  Date_now rt (service w) = (now, s1) →
  Date_now rt s1 = (ignored, s2) →
  expiresOn (token tokenCreds) = Some expiry →
  (now ≤ expiry →
   ∃ rest, calls (Apim.loginToApim rt (Some tokenCreds) w).2
           = calls w ++ LoginWithAppServiceMSI :: rest)
  ∧ (expiry < now →
     Apim.loginToApim rt (Some tokenCreds) w
     = (Fulfilled tokenCreds, mkWorld s2 (calls w))).
Proof.
  intros H1 H2 Hexp.
  rewrite (loginToApim_present rt tokenCreds w now s1 ignored s2 H1 H2), Hexp.
  simpl. split; intros Hcmp.
  - rewrite (proj2 (Z.leb_le now expiry) Hcmp).
    apply (freshLogin_calls rt (mkWorld s2 (calls w))).
  - by rewrite (proj2 (Z.leb_gt now expiry) Hcmp).
Qed.

Lemma loginToApim_expiry_test_inverted_witness :
  (∃ rest, calls (Apim.loginToApim Double.runtime (Some Double.validCreds)
                    Double.world0).2
           = LoginWithAppServiceMSI :: rest)
  ∧ Apim.loginToApim Double.runtime (Some Double.expiredCreds) Double.world0
    = (Fulfilled Double.expiredCreds, Double.world0).
Proof.
  split.
  - apply (loginToApim_expiry_test_inverted Double.runtime Double.validCreds
             Double.world0 1000 1000 2000 (service Double.world0) (service Double.world0));
      [reflexivity | reflexivity | reflexivity | lia].
  - apply (loginToApim_expiry_test_inverted Double.runtime Double.expiredCreds
             Double.world0 1000 1000 500 (service Double.world0) (service Double.world0));
      [reflexivity | reflexivity | reflexivity | lia].
Defined.

(** ** [addUserToGroups] *)

Section Groups.
Context {S : Type} (apiClient : ApiManagementClient S) (user_name : string).
Implicit Types (prev : Async S (list string)) (groups : list string) (w : World S).

(** One turn of the [reduce] after a fulfilled [prev]. *)
Lemma addGroup_run prev group w addedGroups s calls1 :
  prev w = (Fulfilled addedGroups, mkWorld s calls1) →
  Apim.addGroup apiClient user_name prev group w =
  match groupUser_create apiClient group user_name s with
  | (Fulfilled _, s') =>
      (Fulfilled (addedGroups ++ [group]),
       mkWorld s' (calls1 ++ [GroupUserCreate group user_name]))
  | (Rejected e, s') =>
      (Rejected e, mkWorld s' (calls1 ++ [GroupUserCreate group user_name]))
  end.
Proof.
  intros Hprev. unfold Apim.addGroup. run_async. rewrite Hprev. simpl.
  by destruct (groupUser_create _ _ _ _) as [[u | e] s'].
Qed.

(** Once [prev] is rejected, every later turn rethrows at [await prev] and
    calls nothing. *)
Lemma reduce_rejected groups prev w e w1 :
  prev w = (Rejected e, w1) →
  foldl (Apim.addGroup apiClient user_name) prev groups w = (Rejected e, w1).
Proof.
  revert prev. induction groups as [| group groups IH]; intros prev Hprev; [done |].
  simpl. apply IH. unfold Apim.addGroup, await. by rewrite Hprev.
Qed.

(** While the service accepts, the [reduce] adds the groups in order. *)
Lemma reduce_joined groups prev w addedGroups s calls1 s' :
  prev w = (Fulfilled addedGroups, mkWorld s calls1) →
  joined apiClient user_name groups s = Some s' →
  foldl (Apim.addGroup apiClient user_name) prev groups w
  = (Fulfilled (addedGroups ++ groups),
     mkWorld s' (calls1 ++ group_adds user_name groups)).
Proof.
  revert prev addedGroups s calls1.
  induction groups as [| group groups IH]; intros prev addedGroups s calls1 Hprev Hj.
  - simpl in *. injection Hj as <-. unfold group_adds. simpl.
    by rewrite !(right_id_L [] (++)).
  - simpl in *.
    destruct (groupUser_create apiClient group user_name s) as [[u | e] s1] eqn:Hc;
      [| done].
    rewrite (IH _ (addedGroups ++ [group]) s1
               (calls1 ++ [GroupUserCreate group user_name])); [| | done].
    + unfold group_adds. simpl. by rewrite <- !(assoc_L (++)).
    + by rewrite (addGroup_run prev group w addedGroups s calls1 Hprev), Hc.
Qed.

(** The [reduce] stops at the first group the service refuses. *)
Lemma reduce_refused accepted group rest prev w addedGroups s calls1 s2 e s3 :
  prev w = (Fulfilled addedGroups, mkWorld s calls1) →
  joined apiClient user_name accepted s = Some s2 →
  groupUser_create apiClient group user_name s2 = (Rejected e, s3) →
  foldl (Apim.addGroup apiClient user_name) prev (accepted ++ group :: rest) w
  = (Rejected e, mkWorld s3 (calls1 ++ group_adds user_name (accepted ++ [group]))).
Proof.
  intros Hprev Hj Hc.
  rewrite foldl_app. simpl. apply reduce_rejected.
  rewrite (addGroup_run _ _ _ (addedGroups ++ accepted) s2
             (calls1 ++ group_adds user_name accepted)).
  - rewrite Hc. unfold group_adds. by rewrite fmap_app, (assoc_L (++)).
  - apply (reduce_joined accepted prev w addedGroups s calls1 s2 Hprev Hj).
Qed.

(** [addUserToGroups] on a user with a name, by the answer of
    [userGroup.list]. *)
Lemma addUserToGroups_run (user : UserContract.t) groups w :
  UserContract.name user = Some user_name → user_name ≠ "" →
  Apim.addUserToGroups apiClient (Some user) groups w =
  match userGroup_list apiClient user_name (service w) with
  | (Fulfilled existingGroups, s) =>
      if decide (size (Apim.missingGroups (Apim.existingGroupsNames existingGroups)
                         groups) = 0%nat)
      then (Fulfilled (right []), mkWorld s (calls w ++ [UserGroupList user_name]))
      else
        match foldl (Apim.addGroup apiClient user_name) (resolve []) groups
                (mkWorld s (calls w ++ [UserGroupList user_name])) with
        | (Fulfilled added, w') => (Fulfilled (right added), w')
        | (Rejected e, w') => (Rejected e, w')
        end
  | (Rejected e, s) => (Rejected e, mkWorld s (calls w ++ [UserGroupList user_name]))
  end.
Proof.
  intros Hname Hne. unfold Apim.addUserToGroups. simpl. rewrite Hname. simpl.
  rewrite (proj2 (String.eqb_neq user_name "")) by done. simpl.
  unfold await at 1, sdk at 1.
  destruct (userGroup_list _ _ _) as [[existingGroups | e] s]; [| done].
  destruct (decide _) as [Hz | Hnz].
  - by rewrite bool_decide_eq_true_2.
  - rewrite bool_decide_eq_false_2 by done. unfold await at 1.
    by destruct (foldl (Apim.addGroup apiClient user_name) _ _ _) as [[added | e] w'].
Qed.

End Groups.

(** C2, what the code does instead.  When no desired group is missing,
    [addUserToGroups] answers [right([])] having called [userGroup.list]
    only.  When at least one is missing, the [reduce] of line 255 runs over
    [groups], not over [missingGroups]: a group-add call is issued for every
    desired group, those the user already belongs to included, and the
    whole of [groups] is answered. *)
Theorem addUserToGroups_adds_every_group {S} (apiClient : ApiManagementClient S)
    (user : UserContract.t) (user_name : string) (groups : list string)
    (w : World S) (existingGroups : list GroupContract.t) (s : S) :
  UserContract.name user = Some user_name → user_name ≠ "" →
  userGroup_list apiClient user_name (service w) = (Fulfilled existingGroups, s) →
  (size (Apim.missingGroups (Apim.existingGroupsNames existingGroups) groups) = 0%nat →
   Apim.addUserToGroups apiClient (Some user) groups w
   = (Fulfilled (right []), mkWorld s (calls w ++ [UserGroupList user_name])))
  ∧ (∀ s',
       size (Apim.missingGroups (Apim.existingGroupsNames existingGroups) groups) ≠ 0%nat →
       joined apiClient user_name groups s = Some s' →
       Apim.addUserToGroups apiClient (Some user) groups w
       = (Fulfilled (right groups),
          mkWorld s' (calls w ++ UserGroupList user_name :: group_adds user_name groups))).
Proof.
  intros Hname Hne Hlist.
  rewrite (addUserToGroups_run apiClient user_name user groups w Hname Hne), Hlist.
  split.
  - intros Hz. by rewrite decide_True.
  - intros s' Hnz Hj. rewrite decide_False by done.
    rewrite (reduce_joined apiClient user_name groups (resolve []) _ [] s
               (calls w ++ [UserGroupList user_name]) s'); [| done | done].
    by rewrite <- (assoc_L (++)).
Qed.

Lemma addUserToGroups_adds_every_group_witness :
  Apim.addUserToGroups Double.apiClient (Some Double.theUser) ["A"] Double.world0
  = (Fulfilled (right []), mkWorld (service Double.world0) [UserGroupList "alice"])
  ∧ Apim.addUserToGroups Double.apiClient (Some Double.theUser) ["A"; "B"] Double.world0
    = (Fulfilled (right ["A"; "B"]),
       mkWorld (Double.join "B" (service Double.world0))
         [UserGroupList "alice"; GroupUserCreate "A" "alice"; GroupUserCreate "B" "alice"]).
Proof.
  split.
  - eapply (addUserToGroups_adds_every_group Double.apiClient Double.theUser "alice"
              ["A"] Double.world0);
      [reflexivity | discriminate | reflexivity | vm_compute; reflexivity].
  - eapply (addUserToGroups_adds_every_group Double.apiClient Double.theUser "alice"
              ["A"; "B"] Double.world0);
      [reflexivity | discriminate | reflexivity
      | vm_compute; discriminate | vm_compute; reflexivity].
Defined.

(** C3, as the code has it.  When, some desired group being missing, the
    service accepts the group-add calls for the groups [accepted] and refuses
    the next one, for [group], then [addUserToGroups] rejects with that
    refusal: the journal ends with the call for [group], no call is issued
    for the groups after it nor to undo those before it, and the service is
    left as the refused call left it, the groups of [accepted] joined. *)
Theorem addUserToGroups_aborts_on_refusal {S} (apiClient : ApiManagementClient S)
    (user : UserContract.t) (user_name : string)
    (accepted : list string) (group : string) (rest : list string)
    (w : World S) (existingGroups : list GroupContract.t) (s1 s2 s3 : S) (e : Error) :
  UserContract.name user = Some user_name → user_name ≠ "" →
  userGroup_list apiClient user_name (service w) = (Fulfilled existingGroups, s1) →
  size (Apim.missingGroups (Apim.existingGroupsNames existingGroups)
          (accepted ++ group :: rest)) ≠ 0%nat →
  joined apiClient user_name accepted s1 = Some s2 →
  groupUser_create apiClient group user_name s2 = (Rejected e, s3) →
  Apim.addUserToGroups apiClient (Some user) (accepted ++ group :: rest) w
  = (Rejected e,
     mkWorld s3 (calls w ++ UserGroupList user_name
                            :: group_adds user_name (accepted ++ [group]))).
Proof.
  intros Hname Hne Hlist Hnz Hj Hc.
  rewrite (addUserToGroups_run apiClient user_name user _ w Hname Hne), Hlist.
  rewrite decide_False by done.
  rewrite (reduce_refused apiClient user_name accepted group rest (resolve []) _ [] s1
             (calls w ++ [UserGroupList user_name]) s2 e s3); [| done | done | done].
  by rewrite <- (assoc_L (++)).
Qed.

Lemma addUserToGroups_aborts_on_refusal_witness :
  Apim.addUserToGroups Double.apiClient (Some Double.theUser) ["B"; "closed"; "C"]
    Double.world0
  = (Rejected (mkError "Forbidden"),
     mkWorld (Double.join "B" (service Double.world0))
       [UserGroupList "alice"; GroupUserCreate "B" "alice";
        GroupUserCreate "closed" "alice"]).
Proof.
  eapply (addUserToGroups_aborts_on_refusal Double.apiClient Double.theUser "alice"
            ["B"] "closed" ["C"] Double.world0);
    [reflexivity | discriminate | reflexivity | vm_compute; discriminate
    | vm_compute; reflexivity | reflexivity].
Defined.

(** C3 as stated fails in its last part: with the group ["closed"] refused
    after ["B"] was joined, the promise of [addUserToGroups] is rejected,
    and so is not fulfilled with a [left]. *)
Lemma addUserToGroups_refusal_is_thrown :
  (Apim.addUserToGroups Double.apiClient (Some Double.theUser) ["B"; "closed"; "C"]
     Double.world0).1
  = Rejected (mkError "Forbidden")
  ∧ ¬ ∃ err : Error,
        (Apim.addUserToGroups Double.apiClient (Some Double.theUser)
           ["B"; "closed"; "C"] Double.world0).1
        = Fulfilled (left err).
Proof.
  split; [vm_compute; reflexivity |].
  intros [err Herr]. vm_compute in Herr. discriminate Herr.
Qed.

(** ** The order of the group-add calls *)

Section ReduceRuns.
Context {S : Type} (apiClient : ApiManagementClient S) (user_name : string).
Context (groups : list string) (w0 : World S).
#[local] Open Scope nat_scope.
Import Reduce.

Lemma one_by_one_S k group :
  groups !! k = Some group →
  one_by_one groups (Datatypes.S k) = one_by_one groups k ++ [Begin k group; Complete k group].
Proof.
  intros Hg. unfold one_by_one. rewrite seq_S, flat_map_app. simpl.
  by rewrite Hg, (right_id_L [] (++)).
Qed.

Lemma one_by_one_prefix k m :
  k ≤ m → one_by_one groups k `prefix_of` one_by_one groups m.
Proof.
  induction 1 as [| m Hle IH]; [done |].
  etrans; [exact IH |].
  unfold one_by_one. rewrite seq_S, flat_map_app. by apply prefix_app_r.
Qed.

Lemma reduced_S k group :
  groups !! k = Some group →
  reduced apiClient user_name groups w0 (Datatypes.S k)
  = Apim.addGroup apiClient user_name
      (foldl (Apim.addGroup apiClient user_name) (resolve []) (take k groups)) group w0.
Proof.
  intros Hg. unfold reduced. by rewrite (take_S_r _ _ _ Hg), foldl_app.
Qed.

Lemma reachable_initial :
  reachable apiClient user_name groups w0 [] (initial groups w0).
Proof.
  apply (between_calls apiClient user_name groups w0 0).
  - apply length_replicate.
  - lia.
  - intros j Hj. lia.
  - intros j _ Hj. by apply lookup_replicate_2.
  - done.
Qed.

Lemma reachable_step events st ev st' :
  reachable apiClient user_name groups w0 events st →
  step apiClient user_name groups st ev st' →
  reachable apiClient user_name groups w0 (events ++ option_list ev) st'.
Proof.
  intros Hinv Hstep.
  destruct Hinv as
    [k turns w Hlen Hk Hret Hwait Hred
    |k group answer turns w Hlen Hg Hret Hcall Hwait Hred
    |k m e turns w Hlen Hkm Hm Hret Hrej Hwait Hred].
  - (* between two calls *)
    inversion Hstep as
      [i g added ans ? ? w' Hgi Hti Hprev Hsdk
      |i e ? ? Hti Hprev
      |i g added ans ? ? Hgi Hti]; subst; simpl.
    + assert (i < length groups) as Hi by (by eapply lookup_lt_Some).
      assert (k ≤ i) as Hki.
      { destruct (decide (k ≤ i)); [done |]. rewrite Hret in Hti by lia. done. }
      assert (i = k ∧ added = take k groups) as [-> ->].
      { destruct i as [| j]; simpl in Hprev.
        - injection Hprev as <-. assert (k = 0) as -> by lia. done.
        - destruct (decide (j < k)) as [Hjk | Hjk].
          + rewrite Hret in Hprev by lia. injection Hprev as <-.
            split; [lia |]. f_equal; lia.
          + rewrite Hwait in Hprev by lia. done. }
      apply (during_call apiClient user_name groups w0 k g ans).
      * by rewrite length_insert.
      * done.
      * intros j Hj. rewrite list_lookup_insert_ne by lia. by apply Hret.
      * apply list_lookup_insert_eq. lia.
      * intros j Hj1 Hj2. rewrite list_lookup_insert_ne by lia. apply Hwait; lia.
      * rewrite (reduced_S k g Hgi).
        destruct w as [s c]. unfold reduced in Hred.
        rewrite (addGroup_run apiClient user_name _ g w0 (take k groups) s c Hred).
        unfold sdk in Hsdk. simpl in Hsdk.
        destruct (groupUser_create apiClient g user_name s) as [[u | e] s'];
          injection Hsdk as <- <-; done.
    + exfalso. destruct i as [| j]; simpl in Hprev; [done |].
      destruct (decide (j < k)) as [Hjk | Hjk].
      * rewrite Hret in Hprev by lia. done.
      * destruct (decide (j < length groups)).
        -- rewrite Hwait in Hprev by lia. done.
        -- rewrite lookup_ge_None_2 in Hprev by lia. done.
    + exfalso. assert (i < length groups) as Hi by (by eapply lookup_lt_Some).
      destruct (decide (i < k)).
      * rewrite Hret in Hti by lia. done.
      * rewrite Hwait in Hti by lia. done.
  - (* during the call of turn k *)
    assert (k < length groups) as Hkn by (by eapply lookup_lt_Some).
    inversion Hstep as
      [i g added ans ? ? w' Hgi Hti Hprev Hsdk
      |i e ? ? Hti Hprev
      |i g added ans ? ? Hgi Hti]; subst; simpl.
    + exfalso. assert (i < length groups) as Hi by (by eapply lookup_lt_Some).
      destruct i as [| j]; simpl in Hprev.
      * destruct (decide (k = 0)) as [-> | ?]; [congruence |].
        rewrite Hret in Hti by lia. done.
      * destruct (decide (j < k)).
        -- destruct (decide (Datatypes.S j = k)) as [<- | ?]; [congruence |].
           rewrite Hret in Hti by lia. done.
        -- destruct (decide (j = k)) as [-> | ?].
           ++ rewrite Hcall in Hprev. done.
           ++ rewrite Hwait in Hprev by lia. done.
    + exfalso. destruct i as [| j]; simpl in Hprev; [done |].
      destruct (decide (j < k)).
      * rewrite Hret in Hprev by lia. done.
      * destruct (decide (j = k)) as [-> | ?].
        -- rewrite Hcall in Hprev. done.
        -- destruct (decide (j < length groups)).
           ++ rewrite Hwait in Hprev by lia. done.
           ++ rewrite lookup_ge_None_2 in Hprev by lia. done.
    + assert (i < length groups) as Hi by (by eapply lookup_lt_Some).
      assert (i = k) as ->.
      { destruct (decide (i < k)); [rewrite Hret in Hti by lia; done |].
        destruct (decide (i = k)); [done |].
        rewrite Hwait in Hti by lia. done. }
      rewrite Hcall in Hti. injection Hti as <- <-.
      rewrite Hg in Hgi. injection Hgi as <-.
      rewrite <- (assoc_L (++)). simpl. rewrite <- (one_by_one_S k group Hg).
      destruct answer as [u | e]; simpl in *.
      * apply (between_calls apiClient user_name groups w0 (Datatypes.S k)).
        -- by rewrite length_insert.
        -- lia.
        -- intros j Hj. destruct (decide (j = k)) as [-> | ?].
           ++ rewrite list_lookup_insert_eq by lia.
              by rewrite (take_S_r _ _ _ Hg).
           ++ rewrite list_lookup_insert_ne by lia. apply Hret. lia.
        -- intros j Hj1 Hj2. rewrite list_lookup_insert_ne by lia. apply Hwait; lia.
        -- by rewrite (take_S_r _ _ _ Hg).
      * apply (after_refusal apiClient user_name groups w0 k (Datatypes.S k) e).
        -- by rewrite length_insert.
        -- lia.
        -- lia.
        -- intros j Hj. rewrite list_lookup_insert_ne by lia. by apply Hret.
        -- intros j Hj1 Hj2. assert (j = k) as -> by lia.
           apply list_lookup_insert_eq. lia.
        -- intros j Hj1 Hj2. rewrite list_lookup_insert_ne by lia. apply Hwait; lia.
        -- done.
  - (* after a refusal *)
    inversion Hstep as
      [i g added ans ? ? w' Hgi Hti Hprev Hsdk
      |i e' ? ? Hti Hprev
      |i g added ans ? ? Hgi Hti]; subst; simpl.
    + exfalso. assert (i < length groups) as Hi by (by eapply lookup_lt_Some).
      assert (m ≤ i) as Hmi.
      { destruct (decide (m ≤ i)); [done |].
        destruct (decide (i < k)).
        - rewrite Hret in Hti by lia. done.
        - rewrite Hrej in Hti by lia. done. }
      destruct i as [| j]; [lia |]. simpl in Hprev.
      destruct (decide (j < m)).
      * rewrite Hrej in Hprev by lia. done.
      * rewrite Hwait in Hprev by lia. done.
    + rewrite (right_id_L [] (++)).
      assert (i < length turns) as Hi by (by eapply lookup_lt_Some).
      assert (m ≤ i) as Hmi.
      { destruct (decide (m ≤ i)); [done |].
        destruct (decide (i < k)).
        - rewrite Hret in Hti by lia. done.
        - rewrite Hrej in Hti by lia. done. }
      destruct i as [| j]; [lia |]. simpl in Hprev.
      assert (Datatypes.S j = m ∧ e' = e) as [<- ->].
      { destruct (decide (j < m)).
        - rewrite Hrej in Hprev by lia. injection Hprev as <-. split; [lia | done].
        - rewrite Hwait in Hprev by lia. done. }
      apply (after_refusal apiClient user_name groups w0 k (Datatypes.S (Datatypes.S j)) e).
      * by rewrite length_insert.
      * lia.
      * lia.
      * intros j' Hj'. rewrite list_lookup_insert_ne by lia. by apply Hret.
      * intros j' Hj1 Hj2. destruct (decide (j' = Datatypes.S j)) as [-> | ?].
        -- apply list_lookup_insert_eq. lia.
        -- rewrite list_lookup_insert_ne by lia. apply Hrej; lia.
      * intros j' Hj1 Hj2. rewrite list_lookup_insert_ne by lia. apply Hwait; lia.
      * done.
    + exfalso. assert (i < length groups) as Hi by (by eapply lookup_lt_Some).
      destruct (decide (i < k)); [rewrite Hret in Hti by lia; done |].
      destruct (decide (i < m)); [rewrite Hrej in Hti by lia; done |].
      rewrite Hwait in Hti by lia. done.
Qed.

Lemma run_reachable events st :
  run apiClient user_name groups (initial groups w0) events st →
  reachable apiClient user_name groups w0 events st.
Proof.
  induction 1 as [| events st ev st' _ IH Hstep].
  - apply reachable_initial.
  - by apply (reachable_step events st ev st').
Qed.

(** The machine agrees with the [reduce] run in one go: when the promise
    [reduce] returned is settled, it is settled as the fold of [addGroup]
    says, and the world is the one the fold leaves. *)
Lemma run_result events st result :
  run apiClient user_name groups (initial groups w0) events st →
  prev (turns st) (length groups) = Some result →
  foldl (Apim.addGroup apiClient user_name) (resolve []) groups w0 = (result, world st).
Proof.
  intros Hrun%run_reachable Hprev.
  destruct Hrun as
    [k turns w Hlen Hk Hret Hwait Hred
    |k group answer turns w Hlen Hg Hret Hcall Hwait Hred
    |k m e turns w Hlen Hkm Hm Hret Hrej Hwait Hred]; simpl in *.
  - destruct (length groups) as [| j] eqn:Hn; simpl in Hprev.
    + injection Hprev as <-. assert (k = 0) as -> by lia.
      apply nil_length_inv in Hn as ->. done.
    + assert (k = Datatypes.S j) as ->.
      { destruct (decide (j < k)); [lia |]. rewrite Hwait in Hprev by lia. done. }
      rewrite Hret in Hprev by lia. injection Hprev as <-.
      unfold reduced in Hred. rewrite <- Hn, firstn_all in Hred. by rewrite <- Hn, firstn_all.
  - exfalso. assert (k < length groups) as Hkn by (by eapply lookup_lt_Some).
    destruct (length groups) as [| j] eqn:Hn; [lia |]. simpl in Hprev.
    destruct (decide (j = k)) as [-> | ?].
    + by rewrite Hcall in Hprev.
    + rewrite Hwait in Hprev by lia. done.
  - destruct (length groups) as [| j] eqn:Hn; [lia |]. simpl in Hprev.
    assert (m = Datatypes.S j) as ->.
    { destruct (decide (j < m)); [lia |]. rewrite Hwait in Hprev by lia. done. }
    rewrite Hrej in Hprev by lia. injection Hprev as <-.
    rewrite <- (take_drop (Datatypes.S k) groups), foldl_app.
    by apply reduce_rejected.
Qed.

(** While the promise [reduce] returned is pending, some turn can move. *)
Lemma reachable_progress events st :
  reachable apiClient user_name groups w0 events st →
  prev (turns st) (length groups) = None →
  ∃ ev st', step apiClient user_name groups st ev st'.
Proof.
  intros Hinv Hpending.
  destruct Hinv as
    [k turns w Hlen Hk Hret Hwait Hred
    |k group answer turns w Hlen Hg Hret Hcall Hwait Hred
    |k m e turns w Hlen Hkm Hm Hret Hrej Hwait Hred]; simpl in *.
  - destruct (decide (k = length groups)) as [-> | Hne].
    { exfalso. destruct (length groups) as [| j]; simpl in Hpending; [done |].
      rewrite Hret in Hpending by lia. done. }
    destruct (lookup_lt_is_Some_2 groups k) as [group Hg]; [lia |].
    destruct (sdk (GroupUserCreate group user_name)
                (groupUser_create apiClient group user_name) w) as [answer w'] eqn:Hsdk.
    do 2 eexists. eapply (step_begin _ _ _ k group (take k groups)); [done | | | done].
    + apply Hwait; lia.
    + destruct k as [| j]; simpl; [done |]. rewrite Hret by lia. done.
  - do 2 eexists. by eapply (step_complete _ _ _ k group).
  - destruct (decide (m = length groups)) as [-> | Hne].
    { exfalso. destruct (length groups) as [| j]; [lia |]. simpl in Hpending.
      rewrite Hrej in Hpending by lia. done. }
    do 2 eexists. eapply (step_rethrow _ _ _ m e).
    + apply Hwait; lia.
    + destruct m as [| j]; [lia |]. simpl. rewrite Hrej by lia. done.
Qed.

Lemma steps_left_insert (turns : list Turn) i turn turn' :
  turns !! i = Some turn → steps_left turn' < steps_left turn →
  sum_list (steps_left <$> <[i := turn']> turns) < sum_list (steps_left <$> turns).
Proof.
  revert i. induction turns as [| t turns IH]; intros i Hi Hlt; [done |].
  destruct i as [| i]; csimpl in *.
  - injection Hi as ->. lia.
  - specialize (IH i Hi Hlt). lia.
Qed.

Lemma step_steps_left st ev st' :
  step apiClient user_name groups st ev st' →
  sum_list (steps_left <$> turns st') < sum_list (steps_left <$> turns st).
Proof.
  intros Hstep.
  inversion Hstep as
    [i g added ans ts w w' Hgi Hti Hprev Hsdk
    |i e ts w Hti Hprev
    |i g added ans ts w Hgi Hti]; subst; simpl;
    (eapply steps_left_insert; [exact Hti | simpl; lia]).
Qed.

(** Every run can be carried on until the promise [reduce] returned is
    settled. *)
Lemma run_settles fuel events st :
  run apiClient user_name groups (initial groups w0) events st →
  sum_list (steps_left <$> turns st) ≤ fuel →
  ∃ events' st' result,
    run apiClient user_name groups (initial groups w0) events' st'
    ∧ prev (turns st') (length groups) = Some result.
Proof.
  revert events st. induction fuel as [| fuel IH]; intros events st Hrun Hfuel.
  - destruct (prev (turns st) (length groups)) as [result |] eqn:Hprev; [by eauto |].
    destruct (reachable_progress events st (run_reachable _ _ Hrun) Hprev)
      as (ev & st' & Hstep).
    apply step_steps_left in Hstep. lia.
  - destruct (prev (turns st) (length groups)) as [result |] eqn:Hprev; [by eauto |].
    destruct (reachable_progress events st (run_reachable _ _ Hrun) Hprev)
      as (ev & st' & Hstep).
    apply (IH (events ++ option_list ev) st').
    + by eapply run_then.
    + apply step_steps_left in Hstep. lia.
Qed.

(** So the turns, left to the event loop, do settle the promise, and settle
    it as the fold of [addGroup] over [groups] says. *)
Lemma reduce_settles :
  ∃ events st,
    run apiClient user_name groups (initial groups w0) events st
    ∧ (prev (turns st) (length groups), world st)
      = (Some (foldl (Apim.addGroup apiClient user_name) (resolve []) groups w0).1,
         (foldl (Apim.addGroup apiClient user_name) (resolve []) groups w0).2).
Proof.
  destruct (run_settles _ [] (initial groups w0) (run_here _ _ _ _) (reflexivity _))
    as (events & st & result & Hrun & Hprev).
  exists events, st. split; [done |].
  by rewrite Hprev, (run_result events st result Hrun Hprev).
Qed.

End ReduceRuns.

(** C4. In every run of the turns of the [reduce] of [addUserToGroups], the
    events of the group-add calls are a prefix of: the call of the first
    group begins, it completes, the call of the second group begins, it
    completes, and so on; so a call begins only once the call before it has
    completed, and at no time are two turns waiting on a call. *)
Theorem reduce_one_call_at_a_time {S} (apiClient : ApiManagementClient S)
    (user_name : string) (groups : list string) (w0 : World S)
    (events : list Reduce.Event) (st : Reduce.State S) :
  Reduce.run apiClient user_name groups (Reduce.initial groups w0) events st →
  events `prefix_of` Reduce.one_by_one groups (length groups)
  ∧ (∀ i j turn_i turn_j,
       Reduce.turns st !! i = Some turn_i → Reduce.turns st !! j = Some turn_j →
       Reduce.in_flight turn_i → Reduce.in_flight turn_j → i = j).
Proof.
  intros Hrun%run_reachable.
  destruct Hrun as
    [k turns w Hlen Hk Hret Hwait Hred
    |k group answer turns w Hlen Hg Hret Hcall Hwait Hred
    |k m e turns w Hlen Hkm Hm Hret Hrej Hwait Hred]; simpl.
  - split; [by apply one_by_one_prefix |].
    intros i j ti tj Hi Hj Fi Fj. exfalso.
    assert (i < length groups)%nat by (rewrite <- Hlen; by eapply lookup_lt_Some).
    destruct (decide (i < k)%nat).
    + rewrite Hret in Hi by lia. by injection Hi as <-.
    + rewrite Hwait in Hi by lia. by injection Hi as <-.
  - assert (k < length groups)%nat as Hkn by (by eapply lookup_lt_Some).
    split.
    + etrans; [| apply (one_by_one_prefix groups (Datatypes.S k)); lia].
      rewrite (one_by_one_S groups k group Hg).
      apply prefix_app, prefix_cons, prefix_nil.
    + assert (∀ i turn, turns !! i = Some turn → Reduce.in_flight turn → i = k) as Honly.
      { intros i turn Hi Fi.
        assert (i < length groups)%nat by (rewrite <- Hlen; by eapply lookup_lt_Some).
        destruct (decide (i = k)); [done |]. exfalso.
        destruct (decide (i < k)%nat).
        - rewrite Hret in Hi by lia. by injection Hi as <-.
        - rewrite Hwait in Hi by lia. by injection Hi as <-. }
      intros i j ti tj Hi Hj Fi Fj.
      rewrite (Honly i ti Hi Fi), (Honly j tj Hj Fj). done.
  - split; [apply one_by_one_prefix; lia |].
    intros i j ti tj Hi Hj Fi Fj. exfalso.
    assert (i < length groups)%nat by (rewrite <- Hlen; by eapply lookup_lt_Some).
    destruct (decide (i < k)%nat).
    + rewrite Hret in Hi by lia. by injection Hi as <-.
    + destruct (decide (i < m)%nat).
      * rewrite Hrej in Hi by lia. by injection Hi as <-.
      * rewrite Hwait in Hi by lia. by injection Hi as <-.
Qed.

Lemma reduce_one_call_at_a_time_witness :
  [Reduce.Begin 0 "A"; Reduce.Complete 0 "A"; Reduce.Begin 1 "B"]
    `prefix_of` Reduce.one_by_one ["A"; "B"] 2
  ∧ (∀ i j turn_i turn_j,
       [Reduce.Settled (Fulfilled ["A"]);
        Reduce.AwaitCreate ["A"] (Fulfilled Double.theUser)] !! i = Some turn_i →
       [Reduce.Settled (Fulfilled ["A"]);
        Reduce.AwaitCreate ["A"] (Fulfilled Double.theUser)] !! j = Some turn_j →
       Reduce.in_flight turn_i → Reduce.in_flight turn_j → i = j).
Proof.
  pose (w1 := mkWorld (Double.join "A" (service Double.world0))
                [GroupUserCreate "A" "alice"]).
  pose (w2 := mkWorld (Double.join "B" (Double.join "A" (service Double.world0)))
                [GroupUserCreate "A" "alice"; GroupUserCreate "B" "alice"]).
  pose (st1 := Reduce.mkState
                 [Reduce.AwaitCreate [] (Fulfilled Double.theUser); Reduce.AwaitPrev] w1).
  pose (st2 := Reduce.mkState [Reduce.Settled (Fulfilled ["A"]); Reduce.AwaitPrev] w1).
  pose (st3 := Reduce.mkState
                 [Reduce.Settled (Fulfilled ["A"]);
                  Reduce.AwaitCreate ["A"] (Fulfilled Double.theUser)] w2).
  apply (reduce_one_call_at_a_time Double.apiClient "alice" ["A"; "B"] Double.world0
           [Reduce.Begin 0 "A"; Reduce.Complete 0 "A"; Reduce.Begin 1 "B"] st3).
  apply (Reduce.run_then Double.apiClient "alice" ["A"; "B"] _
           [Reduce.Begin 0 "A"; Reduce.Complete 0 "A"] st2
           (Some (Reduce.Begin 1 "B")) st3).
  - apply (Reduce.run_then Double.apiClient "alice" ["A"; "B"] _
             [Reduce.Begin 0 "A"] st1 (Some (Reduce.Complete 0 "A")) st2).
    + apply (Reduce.run_then Double.apiClient "alice" ["A"; "B"] _
               [] (Reduce.initial ["A"; "B"] Double.world0)
               (Some (Reduce.Begin 0 "A")) st1).
      * apply Reduce.run_here.
      * apply (Reduce.step_begin Double.apiClient "alice" ["A"; "B"] 0%nat "A" []
                 (Fulfilled Double.theUser) [Reduce.AwaitPrev; Reduce.AwaitPrev]
                 Double.world0 w1); reflexivity.
    + apply (Reduce.step_complete Double.apiClient "alice" ["A"; "B"] 0%nat "A" []
               (Fulfilled Double.theUser)
               [Reduce.AwaitCreate [] (Fulfilled Double.theUser); Reduce.AwaitPrev] w1);
        reflexivity.
  - apply (Reduce.step_begin Double.apiClient "alice" ["A"; "B"] 1%nat "B" ["A"]
             (Fulfilled Double.theUser)
             [Reduce.Settled (Fulfilled ["A"]); Reduce.AwaitPrev] w1 w2); reflexivity.
Defined.

(** * Further properties of the helpers *)

(** ** [loginToApim] and [getToken] *)

Section FreshLogin.
Context {S : Type} (rt : Runtime S).

(** The three ways a fresh login ends. *)
Lemma freshLogin_run (w : World S) :
  freshLogin rt w =
  match loginWithAppServiceMSI rt (service w) with
  | (Rejected e, s) => (Rejected e, mkWorld s (calls w ++ [LoginWithAppServiceMSI]))
  | (Fulfilled loginCreds, s) =>
      match credentials_getToken rt loginCreds s with
      | (callback_err err, s') =>
          (Rejected err,
           mkWorld s' (calls w ++ [LoginWithAppServiceMSI; GetToken loginCreds]))
      | (callback_tok tok, s') =>
          (Fulfilled {| token := tok; loginCreds := loginCreds |},
           mkWorld s' (calls w ++ [LoginWithAppServiceMSI; GetToken loginCreds]))
      end
  end.
Proof.
  unfold freshLogin, Apim.getToken. run_async.
  destruct (loginWithAppServiceMSI rt (service w)) as [[loginCreds | e] s]; simpl; [| done].
  destruct (credentials_getToken rt loginCreds s) as [[err | tok] s']; simpl;
    by rewrite <- (assoc_L (++)).
Qed.

(** [loginToApim] as the reuse of the cached pair or a fresh login, the
    clock read twice on the way. *)
Lemma loginToApim_run (tokenCreds : option ITokenAndCredentials) (w : World S) :
  Apim.loginToApim rt tokenCreds w =
  match tokenCreds with
  | Some cached =>
      if Apim.number_ge (expiresOn (token cached)) (Date_now rt (service w)).1
      then freshLogin rt (mkWorld (Date_now rt (Date_now rt (service w)).2).2 (calls w))
      else (Fulfilled cached,
            mkWorld (Date_now rt (Date_now rt (service w)).2).2 (calls w))
  | None => freshLogin rt (mkWorld (Date_now rt (Date_now rt (service w)).2).2 (calls w))
  end.
Proof.
  destruct (Date_now rt (service w)) as [now s1] eqn:H1. simpl.
  destruct (Date_now rt s1) as [ignored s2] eqn:H2. simpl.
  destruct tokenCreds as [cached |].
  - apply (loginToApim_present rt cached w now s1 ignored s2 H1 H2).
  - apply (loginToApim_absent rt w now s1 ignored s2 H1 H2).
Qed.

End FreshLogin.

(** X1. Without a cached pair [loginToApim] always logs in.  When
    [loginWithAppServiceMSI] is refused it rejects with that refusal and
    [getToken] is never called; when the callback of [getToken] is given an
    error it rejects with that error; otherwise it answers the pair of the
    credentials of the login and the token those credentials gave. *)
Theorem loginToApim_without_cache {S} (rt : Runtime S) (w : World S)
    (now ignored : Z) (s1 s2 : S) :
  Date_now rt (service w) = (now, s1) →
  Date_now rt s1 = (ignored, s2) →
  (∀ e s3,
     loginWithAppServiceMSI rt s2 = (Rejected e, s3) →
     Apim.loginToApim rt None w
     = (Rejected e, mkWorld s3 (calls w ++ [LoginWithAppServiceMSI])))
  ∧ (∀ loginCreds s3 err s4,
       loginWithAppServiceMSI rt s2 = (Fulfilled loginCreds, s3) →
       credentials_getToken rt loginCreds s3 = (callback_err err, s4) →
       Apim.loginToApim rt None w
       = (Rejected err,
          mkWorld s4 (calls w ++ [LoginWithAppServiceMSI; GetToken loginCreds])))
  ∧ (∀ loginCreds s3 tok s4,
       loginWithAppServiceMSI rt s2 = (Fulfilled loginCreds, s3) →
       credentials_getToken rt loginCreds s3 = (callback_tok tok, s4) →
       Apim.loginToApim rt None w
       = (Fulfilled {| token := tok; loginCreds := loginCreds |},
          mkWorld s4 (calls w ++ [LoginWithAppServiceMSI; GetToken loginCreds]))).
Proof.
  intros H1 H2.
  rewrite (loginToApim_absent rt w now s1 ignored s2 H1 H2), freshLogin_run. simpl.
  split_and!.
  - intros e s3 Hlogin. by rewrite Hlogin.
  - intros loginCreds s3 err s4 Hlogin Htok. by rewrite Hlogin, Htok.
  - intros loginCreds s3 tok s4 Hlogin Htok. by rewrite Hlogin, Htok.
Qed.

Lemma loginToApim_without_cache_witness :
  Apim.loginToApim Outage.runtime None Double.world0
  = (Rejected Outage.unavailable,
     mkWorld (service Double.world0)
       [LoginWithAppServiceMSI; GetToken (mkCreds "https://management.azure.com/")])
  ∧ Apim.loginToApim Double.runtime None Double.world0
    = (Fulfilled {| token := Double.freshToken (service Double.world0);
                    loginCreds := mkCreds "https://management.azure.com/" |},
       mkWorld (service Double.world0)
         [LoginWithAppServiceMSI; GetToken (mkCreds "https://management.azure.com/")]).
Proof.
  split.
  - eapply (loginToApim_without_cache Outage.runtime Double.world0 1000 1000
              (service Double.world0) (service Double.world0)); reflexivity.
  - eapply (loginToApim_without_cache Double.runtime Double.world0 1000 1000
              (service Double.world0) (service Double.world0)); reflexivity.
Defined.

(** X2. A cached pair whose expiry date does not parse, so that its time is
    [NaN], is answered as it is, whatever the clock says, and no login is
    made: every comparison with [NaN] is false. *)
Theorem loginToApim_unparsable_expiry {S} (rt : Runtime S)
    (tokenCreds : ITokenAndCredentials) (w : World S) :
  expiresOn (token tokenCreds) = None →
  Apim.loginToApim rt (Some tokenCreds) w
  = (Fulfilled tokenCreds,
     mkWorld (Date_now rt (Date_now rt (service w)).2).2 (calls w)).
Proof.
  intros Hnan. by rewrite loginToApim_run, Hnan.
Qed.

Lemma loginToApim_unparsable_expiry_witness :
  Apim.loginToApim Double.runtime
    (Some {| token := {| accessToken := "cached"; expiresOn := None |};
             loginCreds := mkCreds "https://management.azure.com/" |})
    Double.world0
  = (Fulfilled {| token := {| accessToken := "cached"; expiresOn := None |};
                  loginCreds := mkCreds "https://management.azure.com/" |},
     Double.world0).
Proof.
  apply (loginToApim_unparsable_expiry Double.runtime
           {| token := {| accessToken := "cached"; expiresOn := None |};
              loginCreds := mkCreds "https://management.azure.com/" |}
           Double.world0).
  reflexivity.
Defined.


(** ** The regenerate helpers *)

(** X4. On a subscription the requesting user owns, [regenerateSecondaryKey]
    calls [subscription.get], then [subscription.regenerateSecondaryKey],
    then [subscription.get] again, and answers the record of that second
    fetch; so when the service has changed the secondary key, the key of the
    record returned differs from the one the record had before the call. *)
Theorem regenerateSecondaryKey_refetches {S} (apiClient : ApiManagementClient S)
    (subscriptionId userId : string) (w : World S)
    (before after : SubscriptionContract.t) (s1 s2 s3 : S) :
  subscription_get apiClient subscriptionId (service w) = (Fulfilled before, s1) →
  owned_by userId before →
  subscription_regenerateSecondaryKey apiClient subscriptionId s1 = (Fulfilled (), s2) →
  subscription_get apiClient subscriptionId s2 = (Fulfilled after, s3) →
  owned_by userId after →
  SubscriptionContract.secondaryKey after ≠ SubscriptionContract.secondaryKey before →
  ∃ result,
    Apim.regenerateSecondaryKey apiClient subscriptionId userId w
    = (Fulfilled (Some result),
       mkWorld s3 (calls w ++ [SubscriptionGet subscriptionId;
                               SubscriptionRegenerateSecondaryKey subscriptionId;
                               SubscriptionGet subscriptionId]))
    ∧ contract result = after
    ∧ SubscriptionContract.secondaryKey (contract result)
      ≠ SubscriptionContract.secondaryKey before.
Proof.
  intros Hget1 Hown1 Hregen Hget2 Hown2 Hkey.
  rewrite regenerateSecondaryKey_run, getUserSubscription_run, Hget1.
  rewrite decide_True by done. simpl. rewrite Hregen.
  rewrite getUserSubscription_run. simpl. rewrite Hget2.
  rewrite decide_True by done.
  rewrite <- !(assoc_L (++)). simpl.
  eexists. split; [reflexivity |]. split; [reflexivity | exact Hkey].
Qed.

Lemma regenerateSecondaryKey_refetches_witness :
  ∃ result,
    Apim.regenerateSecondaryKey Double.apiClient "sub-1" "alice" Double.world0
    = (Fulfilled (Some result),
       mkWorld (Double.bump (service Double.world0))
         [SubscriptionGet "sub-1"; SubscriptionRegenerateSecondaryKey "sub-1";
          SubscriptionGet "sub-1"])
    ∧ contract result = Double.theSubscription (Double.bump (service Double.world0))
    ∧ SubscriptionContract.secondaryKey (contract result) ≠ "secondary-0".
Proof.
  apply (regenerateSecondaryKey_refetches Double.apiClient "sub-1" "alice" Double.world0
           (Double.theSubscription (service Double.world0))
           (Double.theSubscription (Double.bump (service Double.world0)))
           (service Double.world0)
           (Double.bump (service Double.world0))
           (Double.bump (service Double.world0))).
  - reflexivity.
  - split; reflexivity.
  - reflexivity.
  - reflexivity.
  - split; reflexivity.
  - vm_compute. discriminate.
Defined.

(** X5. When the ownership check passes and the service refuses the
    regenerate call, [regeneratePrimaryKey] and [regenerateSecondaryKey]
    reject with that refusal and do not fetch the subscription again. *)
Theorem regenerate_refused {S} (apiClient : ApiManagementClient S)
    (subscriptionId userId : string) (w : World S)
    (subscription : SubscriptionContract.t) (s1 : S) :
  subscription_get apiClient subscriptionId (service w) = (Fulfilled subscription, s1) →
  owned_by userId subscription →
  (∀ e s2,
     subscription_regeneratePrimaryKey apiClient subscriptionId s1 = (Rejected e, s2) →
     Apim.regeneratePrimaryKey apiClient subscriptionId userId w
     = (Rejected e,
        mkWorld s2 (calls w ++ [SubscriptionGet subscriptionId;
                                SubscriptionRegeneratePrimaryKey subscriptionId])))
  ∧ (∀ e s2,
       subscription_regenerateSecondaryKey apiClient subscriptionId s1 = (Rejected e, s2) →
       Apim.regenerateSecondaryKey apiClient subscriptionId userId w
       = (Rejected e,
          mkWorld s2 (calls w ++ [SubscriptionGet subscriptionId;
                                  SubscriptionRegenerateSecondaryKey subscriptionId]))).
Proof.
  intros Hget Hown. split; intros e s2 Hregen.
  - rewrite regeneratePrimaryKey_run, getUserSubscription_run, Hget.
    rewrite decide_True by done. simpl. rewrite Hregen.
    by rewrite <- (assoc_L (++)).
  - rewrite regenerateSecondaryKey_run, getUserSubscription_run, Hget.
    rewrite decide_True by done. simpl. rewrite Hregen.
    by rewrite <- (assoc_L (++)).
Qed.

Lemma regenerate_refused_witness :
  Apim.regeneratePrimaryKey Outage.apiClient "sub-1" "alice" Double.world0
  = (Rejected Outage.unavailable,
     mkWorld (service Double.world0)
       [SubscriptionGet "sub-1"; SubscriptionRegeneratePrimaryKey "sub-1"])
  ∧ Apim.regenerateSecondaryKey Outage.apiClient "sub-1" "alice" Double.world0
    = (Rejected Outage.unavailable,
       mkWorld (service Double.world0)
         [SubscriptionGet "sub-1"; SubscriptionRegenerateSecondaryKey "sub-1"]).
Proof.
  destruct (regenerate_refused Outage.apiClient "sub-1" "alice" Double.world0
              (Double.theSubscription (service Double.world0)) (service Double.world0))
    as [Hprimary Hsecondary].
  - reflexivity.
  - split; reflexivity.
  - split; [apply Hprimary | apply Hsecondary]; reflexivity.
Defined.

(** X6. The answer of the regenerate helpers is that of the second fetch
    alone: when the record fetched after the regeneration no longer passes
    the ownership check, they answer [none] although the key has been
    regenerated. *)
Theorem regenerate_ownership_lost {S} (apiClient : ApiManagementClient S)
    (subscriptionId userId : string) (w : World S)
    (before after : SubscriptionContract.t) (s1 : S) :
  subscription_get apiClient subscriptionId (service w) = (Fulfilled before, s1) →
  owned_by userId before →
  ¬ owned_by userId after →
  (∀ s2 s3,
     subscription_regeneratePrimaryKey apiClient subscriptionId s1 = (Fulfilled (), s2) →
     subscription_get apiClient subscriptionId s2 = (Fulfilled after, s3) →
     Apim.regeneratePrimaryKey apiClient subscriptionId userId w
     = (Fulfilled None,
        mkWorld s3 (calls w ++ [SubscriptionGet subscriptionId;
                                SubscriptionRegeneratePrimaryKey subscriptionId;
                                SubscriptionGet subscriptionId])))
  ∧ (∀ s2 s3,
       subscription_regenerateSecondaryKey apiClient subscriptionId s1 = (Fulfilled (), s2) →
       subscription_get apiClient subscriptionId s2 = (Fulfilled after, s3) →
       Apim.regenerateSecondaryKey apiClient subscriptionId userId w
       = (Fulfilled None,
          mkWorld s3 (calls w ++ [SubscriptionGet subscriptionId;
                                  SubscriptionRegenerateSecondaryKey subscriptionId;
                                  SubscriptionGet subscriptionId]))).
Proof.
  intros Hget1 Hown1 Hown2. split; intros s2 s3 Hregen Hget2.
  - rewrite regeneratePrimaryKey_run, getUserSubscription_run, Hget1.
    rewrite decide_True by done. simpl. rewrite Hregen.
    rewrite getUserSubscription_run. simpl. rewrite Hget2.
    rewrite decide_False by done.
    by rewrite <- !(assoc_L (++)).
  - rewrite regenerateSecondaryKey_run, getUserSubscription_run, Hget1.
    rewrite decide_True by done. simpl. rewrite Hregen.
    rewrite getUserSubscription_run. simpl. rewrite Hget2.
    rewrite decide_False by done.
    by rewrite <- !(assoc_L (++)).
Qed.

Lemma regenerate_ownership_lost_witness :
  Apim.regeneratePrimaryKey Handover.apiClient "sub-1" "alice" Double.world0
  = (Fulfilled None,
     mkWorld (Double.bump (service Double.world0))
       [SubscriptionGet "sub-1"; SubscriptionRegeneratePrimaryKey "sub-1";
        SubscriptionGet "sub-1"])
  ∧ Apim.regenerateSecondaryKey Handover.apiClient "sub-1" "alice" Double.world0
    = (Fulfilled None,
       mkWorld (Double.bump (service Double.world0))
         [SubscriptionGet "sub-1"; SubscriptionRegenerateSecondaryKey "sub-1";
          SubscriptionGet "sub-1"]).
Proof.
  destruct (regenerate_ownership_lost Handover.apiClient "sub-1" "alice" Double.world0
              (Handover.theSubscription (service Double.world0))
              (Handover.theSubscription (Double.bump (service Double.world0)))
              (service Double.world0))
    as [Hprimary Hsecondary].
  - reflexivity.
  - split; reflexivity.
  - intros [Huser _]. vm_compute in Huser. discriminate Huser.
  - split; [eapply Hprimary | eapply Hsecondary]; reflexivity.
Defined.

(** X7. Whatever the service answers, the calls of [regeneratePrimaryKey]
    are [subscription.get] alone, or followed by one
    [subscription.regeneratePrimaryKey], or by that and a second
    [subscription.get], all for the subscription asked for; a [some] is
    only answered after the three; and likewise for
    [regenerateSecondaryKey]. *)
Theorem regenerate_journal {S} (apiClient : ApiManagementClient S)
    (subscriptionId userId : string) (w : World S) :
  (calls (Apim.regeneratePrimaryKey apiClient subscriptionId userId w).2
   ∈ [calls w ++ [SubscriptionGet subscriptionId];
      calls w ++ [SubscriptionGet subscriptionId;
                  SubscriptionRegeneratePrimaryKey subscriptionId];
      calls w ++ [SubscriptionGet subscriptionId;
                  SubscriptionRegeneratePrimaryKey subscriptionId;
                  SubscriptionGet subscriptionId]]
   ∧ ∀ result,
       (Apim.regeneratePrimaryKey apiClient subscriptionId userId w).1
       = Fulfilled (Some result) →
       calls (Apim.regeneratePrimaryKey apiClient subscriptionId userId w).2
       = calls w ++ [SubscriptionGet subscriptionId;
                     SubscriptionRegeneratePrimaryKey subscriptionId;
                     SubscriptionGet subscriptionId])
  ∧ (calls (Apim.regenerateSecondaryKey apiClient subscriptionId userId w).2
     ∈ [calls w ++ [SubscriptionGet subscriptionId];
        calls w ++ [SubscriptionGet subscriptionId;
                    SubscriptionRegenerateSecondaryKey subscriptionId];
        calls w ++ [SubscriptionGet subscriptionId;
                    SubscriptionRegenerateSecondaryKey subscriptionId;
                    SubscriptionGet subscriptionId]]
     ∧ ∀ result,
         (Apim.regenerateSecondaryKey apiClient subscriptionId userId w).1
         = Fulfilled (Some result) →
         calls (Apim.regenerateSecondaryKey apiClient subscriptionId userId w).2
         = calls w ++ [SubscriptionGet subscriptionId;
                       SubscriptionRegenerateSecondaryKey subscriptionId;
                       SubscriptionGet subscriptionId]).
Proof.
  split.
  - rewrite regeneratePrimaryKey_run.
    pose proof (getUserSubscription_calls apiClient subscriptionId userId w) as Hfirst.
    destruct (Apim.getUserSubscription apiClient subscriptionId userId w)
      as [[[r |] | e] w1]; simpl in Hfirst.
    + destruct (subscription_regeneratePrimaryKey apiClient subscriptionId (service w1))
        as [[[] | e] s2]; simpl.
      * rewrite getUserSubscription_calls. simpl.
        rewrite Hfirst, <- !(assoc_L (++)). simpl. split; [set_solver | done].
      * rewrite Hfirst, <- !(assoc_L (++)). simpl. split; [set_solver | done].
    + simpl. rewrite Hfirst. split; [set_solver | done].
    + simpl. rewrite Hfirst. split; [set_solver | done].
  - rewrite regenerateSecondaryKey_run.
    pose proof (getUserSubscription_calls apiClient subscriptionId userId w) as Hfirst.
    destruct (Apim.getUserSubscription apiClient subscriptionId userId w)
      as [[[r |] | e] w1]; simpl in Hfirst.
    + destruct (subscription_regenerateSecondaryKey apiClient subscriptionId (service w1))
        as [[[] | e] s2]; simpl.
      * rewrite getUserSubscription_calls. simpl.
        rewrite Hfirst, <- !(assoc_L (++)). simpl. split; [set_solver | done].
      * rewrite Hfirst, <- !(assoc_L (++)). simpl. split; [set_solver | done].
    + simpl. rewrite Hfirst. split; [set_solver | done].
    + simpl. rewrite Hfirst. split; [set_solver | done].
Qed.

(** ** [getUserSubscription] *)

(** X19. [getUserSubscription] only reads: whatever the service answers,
    its one call is [subscription.get] for the subscription asked for.  A
    refused fetch is thrown as it is, and a [some] it answers holds the
    record fetched, unchanged. *)
Theorem getUserSubscription_reads_once {S} (apiClient : ApiManagementClient S)
    (subscriptionId userId : string) (w : World S) :
  (Apim.getUserSubscription apiClient subscriptionId userId w).2
  = mkWorld (subscription_get apiClient subscriptionId (service w)).2
      (calls w ++ [SubscriptionGet subscriptionId])
  ∧ (∀ e,
       (Apim.getUserSubscription apiClient subscriptionId userId w).1 = Rejected e
       ↔ (subscription_get apiClient subscriptionId (service w)).1 = Rejected e)
  ∧ (∀ result,
       (Apim.getUserSubscription apiClient subscriptionId userId w).1
       = Fulfilled (Some result) →
       (subscription_get apiClient subscriptionId (service w)).1
       = Fulfilled (contract result)).
Proof.
  rewrite getUserSubscription_run.
  destruct (subscription_get apiClient subscriptionId (service w))
    as [[subscription | e] s]; simpl.
  - split; [done |]. split; [done |].
    intros result. destruct (decide _); [| done]. by intros [= <-].
  - split; [done |]. split; [| done].
    intros e0. split; intros [= ->]; done.
Qed.

(** ** [addUserToGroups] *)

Section MissingGroups.
Implicit Types (existingGroups : list GroupContract.t) (groups : list string).

Lemma elem_of_missingGroups existingGroups groups (g : string) :
  g ∈ Apim.missingGroups (Apim.existingGroupsNames existingGroups) groups
  ↔ g ∈ groups
    ∧ ∀ existing, existing ∈ existingGroups → GroupContract.name existing ≠ Some g.
Proof.
  unfold Apim.missingGroups, Apim.existingGroupsNames.
  rewrite elem_of_list_to_set, list_elem_of_filter, elem_of_list_to_set,
    list_elem_of_fmap.
  split.
  - intros [Hno Hin]. split; [done |].
    intros existing Hex Hname. apply Hno. by exists existing.
  - intros [Hin Hno]. split; [| done].
    intros (existing & Hname & Hex). by apply (Hno existing).
Qed.

Lemma missingGroups_none existingGroups groups :
  size (Apim.missingGroups (Apim.existingGroupsNames existingGroups) groups) = 0%nat
  ↔ ∀ g, g ∈ groups →
         ∃ existing, existing ∈ existingGroups ∧ GroupContract.name existing = Some g.
Proof.
  rewrite size_empty_iff. split.
  - intros Hempty g Hin.
    destruct (decide (Some g ∈ Apim.existingGroupsNames existingGroups)) as [Hp | Hp].
    + unfold Apim.existingGroupsNames in Hp.
      apply elem_of_list_to_set, list_elem_of_fmap in Hp as (existing & Hname & Hex).
      by exists existing.
    + exfalso. apply (not_elem_of_empty (C := gset string) g), Hempty.
      unfold Apim.missingGroups. rewrite elem_of_list_to_set, list_elem_of_filter. done.
  - intros Hall g. split; [| by intros ?%not_elem_of_empty].
    intros [Hin Hno]%elem_of_missingGroups.
    destruct (Hall g Hin) as (existing & Hex & Hname). by destruct (Hno existing Hex).
Qed.

End MissingGroups.

(** X8. A user that is absent, or has no name, or an empty one, makes
    [addUserToGroups] answer [left] of the error "Cannot parse user" at
    once: nothing is called and the world is left as it was. *)
Theorem addUserToGroups_malformed_user {S} (apiClient : ApiManagementClient S)
    (user : option UserContract.t) (groups : list string) (w : World S) :
  user = None
  ∨ (∃ u, user = Some u
          ∧ (UserContract.name u = None ∨ UserContract.name u = Some "")) →
  Apim.addUserToGroups apiClient user groups w
  = (Fulfilled (left (mkError "Cannot parse user")), w).
Proof.
  intros [-> | (u & -> & [Hname | Hname])];
    unfold Apim.addUserToGroups; simpl; [| rewrite Hname ..]; done.
Qed.

Lemma addUserToGroups_malformed_user_witness :
  Apim.addUserToGroups Double.apiClient None ["A"; "B"] Double.world0
  = (Fulfilled (left (mkError "Cannot parse user")), Double.world0)
  ∧ Apim.addUserToGroups Double.apiClient
      (Some {| UserContract.id := Some "/users/x";
               UserContract.name := None;
               UserContract.email := None |}) ["A"] Double.world0
    = (Fulfilled (left (mkError "Cannot parse user")), Double.world0)
  ∧ Apim.addUserToGroups Double.apiClient
      (Some {| UserContract.id := Some "/users/x";
               UserContract.name := Some "";
               UserContract.email := None |}) ["A"] Double.world0
    = (Fulfilled (left (mkError "Cannot parse user")), Double.world0).
Proof.
  split_and!.
  - apply (addUserToGroups_malformed_user Double.apiClient None ["A"; "B"] Double.world0).
    left. reflexivity.
  - apply (addUserToGroups_malformed_user Double.apiClient).
    right. eexists. split; [reflexivity | left; reflexivity].
  - apply (addUserToGroups_malformed_user Double.apiClient).
    right. eexists. split; [reflexivity | right; reflexivity].
Defined.

(** X9. When [userGroup.list] is refused, [addUserToGroups] rejects with
    that refusal, having called nothing else: no group is added. *)
Theorem addUserToGroups_list_refused {S} (apiClient : ApiManagementClient S)
    (user : UserContract.t) (user_name : string) (groups : list string)
    (w : World S) (e : Error) (s : S) :
  UserContract.name user = Some user_name → user_name ≠ "" →
  userGroup_list apiClient user_name (service w) = (Rejected e, s) →
  Apim.addUserToGroups apiClient (Some user) groups w
  = (Rejected e, mkWorld s (calls w ++ [UserGroupList user_name])).
Proof.
  intros Hname Hne Hlist.
  by rewrite (addUserToGroups_run apiClient user_name user groups w Hname Hne), Hlist.
Qed.

Lemma addUserToGroups_list_refused_witness :
  Apim.addUserToGroups Outage.apiClient (Some Directory.pending) ["A"; "B"]
    Double.world0
  = (Rejected Outage.unavailable,
     mkWorld (service Double.world0) [UserGroupList "alice-pending"]).
Proof.
  apply (addUserToGroups_list_refused Outage.apiClient Directory.pending
           "alice-pending" ["A"; "B"] Double.world0);
    [reflexivity | discriminate | reflexivity].
Defined.

(** X10. [missingGroups] holds exactly the desired groups that are the name
    of no existing group, an existing group without a name standing for
    none; and it is empty exactly when every desired group is the name of
    an existing one, as when no group is desired. *)
Theorem missingGroups_spec (existingGroups : list GroupContract.t)
    (groups : list string) :
  (∀ g, g ∈ Apim.missingGroups (Apim.existingGroupsNames existingGroups) groups
        ↔ g ∈ groups
          ∧ ∀ existing, existing ∈ existingGroups →
                        GroupContract.name existing ≠ Some g)
  ∧ (size (Apim.missingGroups (Apim.existingGroupsNames existingGroups) groups) = 0%nat
     ↔ ∀ g, g ∈ groups →
            ∃ existing, existing ∈ existingGroups
                        ∧ GroupContract.name existing = Some g)
  ∧ size (Apim.missingGroups (Apim.existingGroupsNames existingGroups) []) = 0%nat.
Proof.
  split_and!.
  - intros g. apply elem_of_missingGroups.
  - apply missingGroups_none.
  - apply missingGroups_none. by intros g ?%elem_of_nil.
Qed.

(** X11. When every desired group is the name of a group the user is
    already in, and so when no group is desired, [addUserToGroups] answers
    [right([])] having called [userGroup.list] only. *)
Theorem addUserToGroups_all_present {S} (apiClient : ApiManagementClient S)
    (user : UserContract.t) (user_name : string) (groups : list string)
    (w : World S) (existingGroups : list GroupContract.t) (s : S) :
  UserContract.name user = Some user_name → user_name ≠ "" →
  userGroup_list apiClient user_name (service w) = (Fulfilled existingGroups, s) →
  (∀ g, g ∈ groups →
        ∃ existing, existing ∈ existingGroups ∧ GroupContract.name existing = Some g) →
  Apim.addUserToGroups apiClient (Some user) groups w
  = (Fulfilled (right []), mkWorld s (calls w ++ [UserGroupList user_name])).
Proof.
  intros Hname Hne Hlist Hall%missingGroups_none.
  rewrite (addUserToGroups_run apiClient user_name user groups w Hname Hne), Hlist.
  by rewrite decide_True.
Qed.

Lemma addUserToGroups_all_present_witness :
  Apim.addUserToGroups Double.apiClient (Some Double.theUser) ["A"; "A"] Double.world0
  = (Fulfilled (right []), mkWorld (service Double.world0) [UserGroupList "alice"])
  ∧ Apim.addUserToGroups Double.apiClient (Some Double.theUser) [] Double.world0
    = (Fulfilled (right []), mkWorld (service Double.world0) [UserGroupList "alice"]).
Proof.
  split.
  - apply (addUserToGroups_all_present Double.apiClient Double.theUser "alice"
             ["A"; "A"] Double.world0 [Double.group "A"]);
      [reflexivity | discriminate | reflexivity |].
    intros g Hg. exists (Double.group "A"). split; [by left |].
    apply elem_of_cons in Hg as [-> | Hg]; [reflexivity |].
    apply elem_of_cons in Hg as [-> | Hg]; [reflexivity |].
    by apply elem_of_nil in Hg.
  - apply (addUserToGroups_all_present Double.apiClient Double.theUser "alice"
             [] Double.world0 [Double.group "A"]);
      [reflexivity | discriminate | reflexivity |].
    intros g Hg. by apply elem_of_nil in Hg.
Defined.

Section ReduceJournal.
Context {S : Type} (apiClient : ApiManagementClient S) (user_name : string).

(** The [reduce] calls [groupUser.create] for the first groups of the list,
    in order; it is fulfilled only after the last one, with the list. *)
Lemma reduce_journal (groups : list string) (w : World S) :
  ∃ k, (k ≤ length groups)%nat
       ∧ calls (foldl (Apim.addGroup apiClient user_name) (resolve []) groups w).2
         = calls w ++ group_adds user_name (take k groups)
       ∧ ∀ added,
           (foldl (Apim.addGroup apiClient user_name) (resolve []) groups w).1
           = Fulfilled added →
           added = groups ∧ k = length groups.
Proof.
  induction groups as [| group groups IH] using rev_ind.
  - exists 0%nat. simpl. split; [done |]. split; [by rewrite (right_id_L [] (++)) |].
    by intros added [= <-].
  - destruct IH as (k & Hk & Hcalls & Hadded). rewrite foldl_app. simpl.
    destruct (foldl (Apim.addGroup apiClient user_name) (resolve []) groups w)
      as [[added | e] [s calls1]] eqn:Hfold; simpl in *.
    + destruct (Hadded added eq_refl) as [-> ->].
      rewrite (addGroup_run apiClient user_name _ group w groups s calls1 Hfold).
      exists (Datatypes.S (length groups)). rewrite length_app. simpl.
      split; [lia |].
      rewrite take_ge in Hcalls by done.
      rewrite take_ge by (rewrite length_app; simpl; lia).
      unfold group_adds in *. rewrite fmap_app, (assoc_L (++)), <- Hcalls. simpl.
      destruct (groupUser_create apiClient group user_name s) as [[u | e] s']; simpl;
        (split; [done |]); [| done].
      intros added [= <-]. split; [done | lia].
    + exists k. rewrite length_app. simpl. split; [lia |].
      assert (Apim.addGroup apiClient user_name
                (foldl (Apim.addGroup apiClient user_name) (resolve []) groups) group w
              = (Rejected e, mkWorld s calls1)) as ->
        by apply (reduce_rejected apiClient user_name [group] _ w e _ Hfold).
      simpl. by rewrite take_app_le.
Qed.

End ReduceJournal.

(** X12. Whatever the service answers, [addUserToGroups] calls nothing, or
    [userGroup.list] for the name of the user followed by [groupUser.create]
    for the first so many desired groups, each once and in the order
    given, for that user; it never removes a membership; and what it
    answers as added is nothing or the whole desired list. *)
Theorem addUserToGroups_journal {S} (apiClient : ApiManagementClient S)
    (user : option UserContract.t) (groups : list string) (w : World S) :
  (calls (Apim.addUserToGroups apiClient user groups w).2 = calls w
   ∨ ∃ user_name k,
       user ≫= UserContract.name = Some user_name
       ∧ (k ≤ length groups)%nat
       ∧ calls (Apim.addUserToGroups apiClient user groups w).2
         = calls w ++ UserGroupList user_name :: group_adds user_name (take k groups))
  ∧ ∀ added,
      (Apim.addUserToGroups apiClient user groups w).1 = Fulfilled (right added) →
      added = [] ∨ added = groups.
Proof.
  destruct (truthy (user ≫= UserContract.name)) eqn:Htruthy.
  - destruct user as [u |]; [| done]. simpl in Htruthy.
    apply truthy_Some in Htruthy as (user_name & Hname & Hne).
    rewrite (addUserToGroups_run apiClient user_name u groups w Hname Hne).
    destruct (userGroup_list apiClient user_name (service w))
      as [[existingGroups | e] s]; simpl.
    + destruct (decide _) as [Hz | Hnz]; simpl.
      * split; [| by intros added [= <-]; left].
        right. exists user_name, 0%nat. split; [done |]. split; [lia |].
        by rewrite take_0.
      * destruct (reduce_journal apiClient user_name groups
                    (mkWorld s (calls w ++ [UserGroupList user_name])))
          as (k & Hk & Hcalls & Hadded).
        destruct (foldl (Apim.addGroup apiClient user_name) (resolve []) groups _)
          as [[added | e] w']; simpl in *.
        -- split.
           ++ right. exists user_name, k. split; [done |]. split; [done |].
              by rewrite Hcalls, <- (assoc_L (++)).
           ++ intros added' [= <-]. right. by destruct (Hadded added eq_refl).
        -- split; [| done].
           right. exists user_name, k. split; [done |]. split; [done |].
           by rewrite Hcalls, <- (assoc_L (++)).
    + split; [| done]. right. exists user_name, 0%nat.
      split; [done |]. split; [lia |]. by rewrite take_0.
  - unfold Apim.addUserToGroups. rewrite Htruthy. simpl.
    split; [by left | done].
Qed.

(** X13. The order in which the event loop runs the turns of the [reduce]
    does not show: in every run, once the promise [reduce] returned is
    settled, it is settled as adding the groups one after the other from
    left to right settles it, and the world is the one that leaves; and
    there is a run that settles it. *)
Theorem reduce_schedule_independent {S} (apiClient : ApiManagementClient S)
    (user_name : string) (groups : list string) (w0 : World S) :
  (∀ events st result,
     Reduce.run apiClient user_name groups (Reduce.initial groups w0) events st →
     Reduce.prev (Reduce.turns st) (length groups) = Some result →
     (result, Reduce.world st)
     = foldl (Apim.addGroup apiClient user_name) (resolve []) groups w0)
  ∧ ∃ events st,
      Reduce.run apiClient user_name groups (Reduce.initial groups w0) events st
      ∧ is_Some (Reduce.prev (Reduce.turns st) (length groups)).
Proof.
  split.
  - intros events st result Hrun Hprev.
    by rewrite (run_result apiClient user_name groups w0 events st result Hrun Hprev).
  - destruct (reduce_settles apiClient user_name groups w0) as (events & st & Hrun & Heq).
    exists events, st. split; [done |]. injection Heq as -> _. done.
Qed.

(** ** [addUserSubscriptionToProduct] *)

Section Product.
Context {S : Type} (rt : Runtime S) (apiClient : ApiManagementClient S).

Lemma addUserSubscriptionToProduct_run (userId productName : string) (w : World S) :
  Apim.addUserSubscriptionToProduct rt apiClient userId productName w =
  match product_get apiClient productName (service w) with
  | (Rejected e, s1) => (Rejected e, mkWorld s1 (calls w ++ [ProductGet productName]))
  | (Fulfilled product, s1) =>
      if truthy (product ≫= ProductContract.id)
      then
        match subscription_createOrUpdate apiClient (ulid rt s1).1
                {| SubscriptionCreateParameters.displayName := (ulid rt s1).1;
                   SubscriptionCreateParameters.productId :=
                     default "" (product ≫= ProductContract.id);
                   SubscriptionCreateParameters.state := Some "active";
                   SubscriptionCreateParameters.userId := userId |} (ulid rt s1).2 with
        | (outcome, s3) =>
            (match outcome with
             | Fulfilled subscription => Fulfilled (right subscription)
             | Rejected e => Rejected e
             end,
             mkWorld s3
               (calls w ++
                [ProductGet productName;
                 SubscriptionCreateOrUpdate (ulid rt s1).1
                   {| SubscriptionCreateParameters.displayName := (ulid rt s1).1;
                      SubscriptionCreateParameters.productId :=
                        default "" (product ≫= ProductContract.id);
                      SubscriptionCreateParameters.state := Some "active";
                      SubscriptionCreateParameters.userId := userId |}]))
        end
      else (Fulfilled (left (mkError "Cannot find API management product for update")),
            mkWorld s1 (calls w ++ [ProductGet productName]))
  end.
Proof.
  unfold Apim.addUserSubscriptionToProduct. run_async.
  destruct (product_get apiClient productName (service w)) as [[product | e] s1];
    simpl; [| done].
  destruct (truthy (product ≫= ProductContract.id)); simpl; [| done].
  destruct (ulid rt s1) as [subscriptionId s2]; simpl.
  destruct (subscription_createOrUpdate _ _ _ _) as [[subscription | e] s3]; simpl;
    by rewrite <- (assoc_L (++)).
Qed.

End Product.

(** X14. A failure of the service is thrown by [addUserSubscriptionToProduct],
    not answered as a [left].  When [product.get] is refused it rejects
    with that refusal, no identifier is drawn and nothing is created; when
    [subscription.createOrUpdate] is refused it rejects with that refusal,
    after the one call. *)
Theorem addUserSubscriptionToProduct_refused {S} (rt : Runtime S)
    (apiClient : ApiManagementClient S) (userId productName : string) (w : World S) :
  (∀ e s1,
     product_get apiClient productName (service w) = (Rejected e, s1) →
     Apim.addUserSubscriptionToProduct rt apiClient userId productName w
     = (Rejected e, mkWorld s1 (calls w ++ [ProductGet productName])))
  ∧ (∀ p product_id s1 subscriptionId s2 e s3,
       product_get apiClient productName (service w) = (Fulfilled (Some p), s1) →
       ProductContract.id p = Some product_id → product_id ≠ "" →
       ulid rt s1 = (subscriptionId, s2) →
       subscription_createOrUpdate apiClient subscriptionId
         {| SubscriptionCreateParameters.displayName := subscriptionId;
            SubscriptionCreateParameters.productId := product_id;
            SubscriptionCreateParameters.state := Some "active";
            SubscriptionCreateParameters.userId := userId |} s2
       = (Rejected e, s3) →
       Apim.addUserSubscriptionToProduct rt apiClient userId productName w
       = (Rejected e,
          mkWorld s3
            (calls w ++
             [ProductGet productName;
              SubscriptionCreateOrUpdate subscriptionId
                {| SubscriptionCreateParameters.displayName := subscriptionId;
                   SubscriptionCreateParameters.productId := product_id;
                   SubscriptionCreateParameters.state := Some "active";
                   SubscriptionCreateParameters.userId := userId |}]))).
Proof.
  split.
  - intros e s1 Hget. by rewrite addUserSubscriptionToProduct_run, Hget.
  - intros p product_id s1 subscriptionId s2 e s3 Hget Hid Hne Hulid Hcreate.
    rewrite addUserSubscriptionToProduct_run, Hget. simpl. rewrite Hid. simpl.
    rewrite (proj2 (String.eqb_neq product_id "")) by done. simpl.
    rewrite Hulid. simpl. by rewrite Hcreate.
Qed.

Lemma addUserSubscriptionToProduct_refused_witness :
  Apim.addUserSubscriptionToProduct Double.runtime Outage.apiClient "alice" "ghost"
    Double.world0
  = (Rejected Outage.unavailable, mkWorld (service Double.world0) [ProductGet "ghost"])
  ∧ ∃ parameters,
      Apim.addUserSubscriptionToProduct Double.runtime Outage.apiClient "alice" "starter"
        Double.world0
      = (Rejected Outage.unavailable,
         mkWorld (service Double.world0)
           [ProductGet "starter";
            SubscriptionCreateOrUpdate "01ARZ3NDEKTSV4RRFFQ69G5FAV" parameters]).
Proof.
  destruct (addUserSubscriptionToProduct_refused Double.runtime Outage.apiClient
              "alice" "ghost" Double.world0) as [Hget _].
  destruct (addUserSubscriptionToProduct_refused Double.runtime Outage.apiClient
              "alice" "starter" Double.world0) as [_ Hcreate].
  split.
  - apply Hget. reflexivity.
  - eexists. eapply Hcreate;
      [reflexivity | reflexivity | discriminate | reflexivity | reflexivity].
Defined.

(** X15. Whatever the service answers, [addUserSubscriptionToProduct] calls
    [product.get] alone, or [product.get] and then
    [subscription.createOrUpdate] once, for the requested user, with state
    ["active"], a product id that is not empty and the identifier of the
    subscription as its display name; it never fetches a subscription to
    see whether one exists; and it answers [right] only after the second
    call, [left] only without it. *)
Theorem addUserSubscriptionToProduct_journal {S} (rt : Runtime S)
    (apiClient : ApiManagementClient S) (userId productName : string) (w : World S) :
  (calls (Apim.addUserSubscriptionToProduct rt apiClient userId productName w).2
   = calls w ++ [ProductGet productName]
   ∧ ∀ subscription,
       (Apim.addUserSubscriptionToProduct rt apiClient userId productName w).1
       ≠ Fulfilled (right subscription))
  ∨ (∃ subscriptionId product_id,
       product_id ≠ ""
       ∧ calls (Apim.addUserSubscriptionToProduct rt apiClient userId productName w).2
         = calls w ++
           [ProductGet productName;
            SubscriptionCreateOrUpdate subscriptionId
              {| SubscriptionCreateParameters.displayName := subscriptionId;
                 SubscriptionCreateParameters.productId := product_id;
                 SubscriptionCreateParameters.state := Some "active";
                 SubscriptionCreateParameters.userId := userId |}]
       ∧ ∀ err,
           (Apim.addUserSubscriptionToProduct rt apiClient userId productName w).1
           ≠ Fulfilled (left err)).
Proof.
  rewrite addUserSubscriptionToProduct_run.
  destruct (product_get apiClient productName (service w)) as [[product | e] s1];
    simpl; [| by left].
  destruct (truthy (product ≫= ProductContract.id)) eqn:Hid; simpl; [| by left].
  apply truthy_Some in Hid as (product_id & Hid & Hne). rewrite Hid. simpl.
  right. exists (ulid rt s1).1, product_id. split; [done |].
  destruct (subscription_createOrUpdate _ _ _ _) as [[subscription | e] s3]; simpl; done.
Qed.

(** ** [getApimUser] *)

(** X16. [getApimUser] asks the service for the users whose email equals
    the one given and looks at the first record only.  It answers [none]
    when there is no result or no record, and also when the first record
    lacks an id or a name, whatever the records after it; a [some] it
    answers is that first record, with its id and its name, both non-empty. *)
Theorem getApimUser_first_record {S} (apiClient : UserOperations S)
    (email : string) (w : World S) (results : option (list UserContract.t)) (s : S) :
  user_listByService apiClient ("email eq '" +:+ email +:+ "'") (service w)
  = (Fulfilled results, s) →
  (ApimUsers.getApimUser apiClient email w).2 = mkWorld s (calls w)
  ∧ ((ApimUsers.getApimUser apiClient email w).1 = Fulfilled None
     ↔ results = None ∨ results = Some []
       ∨ ∃ first others,
           results = Some (first :: others)
           ∧ (truthy (UserContract.id first) = false
              ∨ truthy (UserContract.name first) = false))
  ∧ (∀ user,
       (ApimUsers.getApimUser apiClient email w).1 = Fulfilled (Some user) →
       ∃ others,
         results = Some (ApimUser.contract user :: others)
         ∧ UserContract.id (ApimUser.contract user) = Some (ApimUser.id user)
         ∧ UserContract.name (ApimUser.contract user) = Some (ApimUser.name user)
         ∧ ApimUser.id user ≠ "" ∧ ApimUser.name user ≠ "").
Proof.
  intros Hlist. unfold ApimUsers.getApimUser, ApimUsers.emailFilter, await, unjournaled.
  rewrite Hlist.
  destruct results as [[| first others] |]; simpl.
  - split; [done |]. split; [| done]. split; [intros _; by right; left | done].
  - destruct (truthy (UserContract.id first)) eqn:Hid; simpl.
    + destruct (truthy (UserContract.name first)) eqn:Hname; simpl.
      * split; [done |]. split.
        -- split; [done |].
           intros [? | [? | (f & o & [= <- <-] & [H | H])]]; congruence.
        -- intros user [= <-]. simpl.
           apply truthy_Some in Hid as (i & Hi & Hine).
           apply truthy_Some in Hname as (n & Hn & Hnne).
           exists others. by rewrite Hi, Hn.
      * split; [done |]. split; [| done].
        split; [| done]. intros _. right; right. exists first, others. eauto.
    + split; [done |]. split; [| done].
      split; [| done]. intros _. right; right. exists first, others. eauto.
  - split; [done |]. split; [| done]. split; [intros _; by left | done].
Qed.

Lemma getApimUser_first_record_witness :
  (ApimUsers.getApimUser Directory.users "alice@example.com" Double.world0).1
  = Fulfilled None
  ∧ ∃ user,
      (ApimUsers.getApimUser Directory.users "carol@example.com" Double.world0).1
      = Fulfilled (Some user)
      ∧ ApimUser.contract user = Double.theUser
      ∧ ApimUser.name user = "alice".
Proof.
  split.
  - apply (getApimUser_first_record Directory.users "alice@example.com" Double.world0
             (Some [Directory.pending; Double.theUser]) (service Double.world0));
      [reflexivity |].
    right; right. exists Directory.pending, [Double.theUser].
    split; [reflexivity | left; reflexivity].
  - eexists. split; [reflexivity |].
    destruct (getApimUser_first_record Directory.users "carol@example.com" Double.world0
                (Some [Double.theUser; Directory.pending]) (service Double.world0))
      as (_ & _ & Hsome); [reflexivity |].
    edestruct Hsome as (others & _ & _ & _ & _ & _); [reflexivity |].
    split; reflexivity.
Defined.

(** ** [toEither] and the request types *)

Lemma string_of_number_inj (n m : Z) :
  string_of_number n = string_of_number m → n = m.
Proof.
  unfold string_of_number. intros Heq.
  assert (∀ z, NilZero.int_of_string (NilZero.string_of_int (Z.to_int z))
               = Some (Z.to_int z)) as Hparse.
  { intros z. apply NilZero.isi; destruct z as [| p | p]; simpl; try done.
    - intros [= H]. by apply DecimalPos.Unsigned.to_uint_nonnil in H.
    - intros [= H]. by apply DecimalPos.Unsigned.to_uint_nonnil in H. }
  apply DecimalZ.to_int_inj.
  pose proof (Hparse n) as Hn. rewrite Heq, Hparse in Hn. by injection Hn.
Qed.

(** X17. The error [toEither] answers tells the status: two responses that
    both give a [left], and the same one, have the same status; and no
    response gives the error of the undefined one. *)
Theorem toEither_error_tells_status {V : Type}
    (r1 r2 : ApiClient.ApiResponseType V) (e : Error) :
  ApiClient.toEither (Some r1) = left e →
  ApiClient.toEither (Some r2) = left e →
  ApiClient.status r1 = ApiClient.status r2
  ∧ e ≠ mkError "Response is empty".
Proof.
  unfold ApiClient.toEither.
  destruct (_ || _); [done |]. intros [= <-].
  destruct (_ || _); [done |]. intros [= Heq]. split.
  - symmetry. apply string_of_number_inj. exact Heq.
  - simpl. intros H. discriminate H.
Qed.

Lemma toEither_error_tells_status_witness :
  ApiClient.status (ApiClient.mkResponse 404 "a")
  = ApiClient.status (ApiClient.mkResponse 404 "b")
  ∧ mkError "Error parsing response: 404" ≠ mkError "Response is empty".
Proof.
  apply (toEither_error_tells_status
           (ApiClient.mkResponse 404 "a") (ApiClient.mkResponse 404 "b")
           (mkError "Error parsing response: 404")); reflexivity.
Defined.

(** X18. The requests of [APIClient] cannot be taken for one another: the
    method and the url of a request tell which of the five operations it is
    and, for the four that take one, which id or fiscal code it is for. *)
Theorem requestLine_tells_operation (o1 o2 : ApiRequests.Operation) :
  ApiRequests.requestLineOf o1 = ApiRequests.requestLineOf o2 → o1 = o2.
Proof.
  destruct o1, o2; unfold ApiRequests.requestLineOf, ApiRequests.requestLine; simpl;
    intros H; try discriminate H; try reflexivity;
    injection H as H; compute in H; by subst.
Qed.

Lemma requestLine_tells_operation_witness :
  ApiRequests.getService "an-id" = ApiRequests.getService ("an" +:+ "-id")
  ∧ ApiRequests.requestLineOf (ApiRequests.getService "an-id")
    ≠ ApiRequests.requestLineOf (ApiRequests.updateService "an-id").
Proof.
  split.
  - apply (requestLine_tells_operation (ApiRequests.getService "an-id")
             (ApiRequests.getService ("an" +:+ "-id"))).
    reflexivity.
  - discriminate.
Defined.
